(** * web_to_doc: crawl orchestration and content pipeline

    A shallow embedding of [src/web_to_doc.py] (class [WebToPdfConverter])
    and the properties of its URL scope filter, content and category
    filters, page processing, crawl loop and renderers.

    Conventions of the embedding:
    - Python [str] values are [string]s; the methods used by the program
      ([lower], [strip], [split], [replace], [startswith], [endswith],
      [in]) are defined below on ASCII characters.
    - [self.url_depth] is a [gmap string Z], [self.visited_urls] a
      [gset string], [self.to_visit] a list used as a FIFO queue and
      [self.contents] an insertion-ordered association list (a Python
      [dict] iterates in insertion order, and the renderers depend on it).
    - The collaborators that are not part of the program (the URL
      library, the HTTP transport together with the HTML parser, the PDF
      paragraph constructor, the image download, the sitemap transport,
      the interactive prompt and the word-processor library) are
      parameters of the development. *)

From Stdlib Require Import ZArith Lia List Ascii String Bool.
From stdpp Require Import base option list gmap strings.

Local Open Scope Z_scope.
Local Open Scope string_scope.
Local Open Scope list_scope.

(* Let [simpl] compute the append of strings, as it does for lists. *)
#[local] Arguments String.append !_ _ / : simpl nomatch.

(** ** Python string primitives *)

Module PyStr.

(** [c.lower()] on one ASCII character. *)
Definition lower_ascii (c : ascii) : ascii :=
  let n := nat_of_ascii c in
  if (Nat.leb 65 n && Nat.leb n 90)%bool then ascii_of_nat (n + 32) else c.

(** [s.lower()] *)
Fixpoint lower (s : string) : string :=
  match s with
  | EmptyString => EmptyString
  | String c s' => String (lower_ascii c) (lower s')
  end.

(** The characters removed by [s.strip()]: space, tab, newline, vertical
    tab, form feed, carriage return and the separators 28 to 31. *)
Definition is_space (c : ascii) : bool :=
  let n := nat_of_ascii c in
  (Nat.eqb n 32 || (Nat.leb 9 n && Nat.leb n 13) || (Nat.leb 28 n && Nat.leb n 31))%bool.

Fixpoint lstrip (s : string) : string :=
  match s with
  | EmptyString => EmptyString
  | String c s' => if is_space c then lstrip s' else s
  end.

(** Right strip: drop the character when everything from it on is
    white space. *)
Fixpoint rstrip (s : string) : string :=
  match s with
  | EmptyString => EmptyString
  | String c s' =>
      match rstrip s' with
      | EmptyString => if is_space c then EmptyString else String c EmptyString
      | r => String c r
      end
  end.

(** [s.strip()] *)
Definition strip (s : string) : string := rstrip (lstrip s).

(** [s.startswith(p)] *)
Fixpoint startswith (p s : string) : bool :=
  match p, s with
  | EmptyString, _ => true
  | String a p', String b s' => if Ascii.eqb a b then startswith p' s' else false
  | String _ _, EmptyString => false
  end.

(** [needle in hay] *)
Fixpoint contains (needle hay : string) : bool :=
  (startswith needle hay ||
   match hay with
   | EmptyString => false
   | String _ hay' => contains needle hay'
   end)%bool.

(** [s.endswith(p)] *)
Fixpoint endswith (p s : string) : bool :=
  (String.eqb p s ||
   match s with
   | EmptyString => false
   | String _ s' => endswith p s'
   end)%bool.

(** [s.endswith((p1, ..., pn))] with a tuple of suffixes. *)
Definition endswith_any (ps : list string) (s : string) : bool :=
  existsb (fun p => endswith p s) ps.

(** [s.split(sep)] for a non-empty separator: [skip] counts the
    characters of a separator occurrence still to be passed over, [cur]
    is the current piece, reversed. *)
Fixpoint split_go (sep : string) (skip : nat) (cur : list ascii) (s : string)
  : list string :=
  match s with
  | EmptyString => [string_of_list_ascii (rev cur)]
  | String c s' =>
      match skip with
      | S k => split_go sep k cur s'
      | O =>
          if startswith sep s
          then string_of_list_ascii (rev cur)
                 :: split_go sep (String.length sep - 1) [] s'
          else split_go sep O (c :: cur) s'
      end
  end.

Definition split (sep s : string) : list string := split_go sep O [] s.

(** [s.replace(old, new)] where [old] is a single character. *)
Fixpoint replace_char (old : ascii) (new : string) (s : string) : string :=
  match s with
  | EmptyString => EmptyString
  | String c s' =>
      if Ascii.eqb c old then new +:+ replace_char old new s'
      else String c (replace_char old new s')
  end.

(** [s.rsplit(sep, 1)[0]] for a one-character separator: the part
    before the last occurrence, or all of [s] when there is none. *)
Fixpoint has_char (c : ascii) (s : string) : bool :=
  match s with
  | EmptyString => false
  | String d s' => (Ascii.eqb c d || has_char c s')%bool
  end.

Fixpoint before_last (sep : ascii) (s : string) : string :=
  match s with
  | EmptyString => EmptyString
  | String c s' =>
      if has_char sep s' then String c (before_last sep s')
      else if Ascii.eqb c sep then EmptyString
      else s
  end.

(** [s.split(sep)[0]] and [s.split(sep)[-1]] *)
Definition split_first (sep s : string) : string := hd s (split sep s).
Definition split_last (sep s : string) : string := List.last (split sep s) s.

End PyStr.

(** ** The parsed document

    What [BeautifulSoup(html, 'html.parser')] hands to the program: a
    forest of text nodes and elements.  An element carries its tag name,
    the list of its classes (the parser splits the [class] attribute) and
    its other attributes. *)

#[warnings="-register-all"]
Inductive node : Type :=
| Text (s : string)
| Elem (tag : string) (classes : list string) (attrs : list (string * string))
       (children : list node).

(** The document object itself is the list of its top-level nodes. *)
Definition soup : Type := list node.

Module Dom.

(** Tag name and classes of an element: what a selector looks at. *)
Definition head : Type := (string * list string)%type.

(** A compound selector such as [nav], [.navbar] or [.nav-item.active]. *)
Record compound : Type := Compound {
  c_tag : option string;
  c_classes : list string
}.

Definition by_tag (t : string) : compound := Compound (Some t) [].
Definition by_class (c : string) : compound := Compound None [c].

(** A selector is a chain of compounds joined by the descendant
    combinator, outermost first: ['.sidebar .active'] is
    [[by_class "sidebar"; by_class "active"]]. *)
Definition selector : Type := list compound.

Definition has_class (c : string) (h : head) : bool :=
  existsb (String.eqb c) (snd h).

Definition matches (c : compound) (h : head) : bool :=
  (match c_tag c with
   | Some t => String.eqb t (fst h)
   | None => true
   end && forallb (fun k => has_class k h) (c_classes c))%bool.

(** The compounds [cs] (innermost first) are matched by ancestors of
    the element, taken from the nearest one outwards. *)
Fixpoint chain_in_ancestors (cs : list compound) (anc : list head) : bool :=
  match cs with
  | [] => true
  | c :: cs' =>
      (fix find (anc : list head) : bool :=
         match anc with
         | [] => false
         | a :: anc' =>
             if matches c a then chain_in_ancestors cs' anc' else find anc'
         end) anc
  end.

Definition selects (sel : selector) (anc : list head) (h : head) : bool :=
  match rev sel with
  | [] => false
  | c :: outer => (matches c h && chain_in_ancestors outer anc)%bool
  end.

(** All elements below a node in document order, each with the heads of
    its ancestors (nearest first). *)
Fixpoint elements_of (anc : list head) (n : node) : list (list head * node) :=
  match n with
  | Text _ => []
  | Elem t cl _ cs => (anc, n) :: flat_map (elements_of ((t, cl) :: anc)) cs
  end.

Definition elements (anc : list head) (f : list node) : list (list head * node) :=
  flat_map (elements_of anc) f.

Definition head_of (n : node) : head :=
  match n with
  | Text _ => (EmptyString, [])
  | Elem t cl _ _ => (t, cl)
  end.

Definition attr (name : string) (n : node) : option string :=
  match n with
  | Text _ => None
  | Elem _ _ attrs _ =>
      snd <$> List.find (fun kv => String.eqb name (fst kv)) attrs
  end.

Definition children (n : node) : list node :=
  match n with
  | Text _ => []
  | Elem _ _ _ cs => cs
  end.

(** [soup.select(selector)] *)
Definition select (sel : selector) (d : soup) : list node :=
  snd <$> List.filter (fun e => selects sel (fst e) (head_of (snd e))) (elements [] d).

(** [soup.select_one(selector)] *)
Definition select_one (sel : selector) (d : soup) : option node :=
  List.hd_error (select sel d).

(** [soup.title], [soup.body]: the first element with that tag. *)
Definition find_tag (t : string) (d : soup) : option node :=
  select_one [by_tag t] d.

(** [element.get_text()] and [element.text] *)
Fixpoint get_text (n : node) : string :=
  match n with
  | Text s => s
  | Elem _ _ _ cs => String.concat EmptyString (List.map get_text cs)
  end.

(** [soup.get_text()] *)
Definition get_text_all (d : list node) : string :=
  String.concat EmptyString (List.map get_text d).

(** [element.string]: the single string an element wraps, if any. *)
Fixpoint node_string (n : node) : option string :=
  match n with
  | Text s => Some s
  | Elem _ _ _ [c] => node_string c
  | Elem _ _ _ _ => None
  end.

(** [element.find_all(names)]: the descendants of [n] whose tag is one
    of [names], in document order, each with its ancestors up to [n]. *)
Definition find_all (names : list string) (n : node) : list (list head * node) :=
  List.filter (fun e => existsb (String.eqb (fst (head_of (snd e)))) names)
              (elements [head_of n] (children n)).

(** [soup.find_all('a', href=True)] as the list of [href] values. *)
Definition anchors (d : soup) : list string :=
  flat_map (fun e => match snd e with
                     | Elem t _ _ _ =>
                         if String.eqb t "a"
                         then match attr "href" (snd e) with
                              | Some h => [h]
                              | None => []
                              end
                         else []
                     | Text _ => []
                     end)
           (elements [] d).

(** [element.decompose()] for every element matched by the compound
    selector [c]: the matched elements disappear with their subtrees. *)
Fixpoint decompose_in (c : compound) (n : node) : list node :=
  match n with
  | Text _ => [n]
  | Elem t cl ats cs =>
      if matches c (t, cl) then []
      else [Elem t cl ats (flat_map (decompose_in c) cs)]
  end.

Definition decompose_all (c : compound) (d : soup) : soup :=
  flat_map (decompose_in c) d.

End Dom.

(** ** Options, page records and crawl state *)

(** [self.options]; [delay] and [timeout] only reach the transport and
    [time.sleep] and are not represented. *)
Record options : Type := Options {
  max_pages : Z;
  max_depth : option Z;
  format : string;
  use_sitemap : bool;
  sitemap_url : option string;
  categories : option string;
  contains : option string;
  not_contains : option string;
  create_toc : bool;
  interactive : bool
}.

(** The defaults of [__init__]. *)
Definition default_options : options :=
  {| max_pages := 250; max_depth := None; format := "pdf";
     use_sitemap := false; sitemap_url := None; categories := None;
     contains := None; not_contains := None; create_toc := false;
     interactive := false |}.

(** The options with another format selector. *)
Definition with_format (f : string) (o : options) : options :=
  {| max_pages := max_pages o; max_depth := max_depth o; format := f;
     use_sitemap := use_sitemap o; sitemap_url := sitemap_url o;
     categories := categories o; contains := contains o;
     not_contains := not_contains o; create_toc := create_toc o;
     interactive := interactive o |}.

(** Python truthiness of an optional string option value: [None] and
    the empty string are false. *)
Definition truthy (o : option string) : bool :=
  match o with
  | Some (String _ _) => true
  | _ => false
  end.

(** An entry of [self.contents].  [title] is [None] when the page has a
    [title] element that wraps no single string. *)
Record page_content : Type := PageContent {
  pc_title : option string;
  pc_html : node;
  pc_text : string;
  pc_url : string
}.

(** The flowables handed to the PDF layout engine. *)
Inductive pstyle : Type := TitleStyle | URLStyle | HeaderStyle | TextStyle.

Inductive flowable : Type :=
| Paragraph (text : string) (style : pstyle)
| Preformatted (text : string)
| Image (path : string)
| Spacer
| PageBreak
| TableOfContents.

(** The mutable fields of the converter, with two traces that the
    program does not keep: [fetched] lists the URLs passed to
    [download_page] and [attempted] the URLs added to [visited_urls],
    both most recent first. *)
Record state : Type := State {
  visited_urls : gset string;
  to_visit : list string;
  url_depth : gmap string Z;
  contents : list (string * page_content);
  pdf_elements : list flowable;
  fetched : list string;
  attempted : list string
}.

Definition set_to_visit (q : list string) (s : state) : state :=
  {| visited_urls := visited_urls s; to_visit := q; url_depth := url_depth s;
     contents := contents s; pdf_elements := pdf_elements s;
     fetched := fetched s; attempted := attempted s |}.

Definition set_url_depth (d : gmap string Z) (s : state) : state :=
  {| visited_urls := visited_urls s; to_visit := to_visit s; url_depth := d;
     contents := contents s; pdf_elements := pdf_elements s;
     fetched := fetched s; attempted := attempted s |}.

Definition set_contents (c : list (string * page_content)) (s : state) : state :=
  {| visited_urls := visited_urls s; to_visit := to_visit s;
     url_depth := url_depth s; contents := c; pdf_elements := pdf_elements s;
     fetched := fetched s; attempted := attempted s |}.

Definition set_pdf_elements (e : list flowable) (s : state) : state :=
  {| visited_urls := visited_urls s; to_visit := to_visit s;
     url_depth := url_depth s; contents := contents s; pdf_elements := e;
     fetched := fetched s; attempted := attempted s |}.

(** [self.visited_urls.add(url)] *)
Definition visit (url : string) (s : state) : state :=
  {| visited_urls := {[url]} ∪ visited_urls s; to_visit := to_visit s;
     url_depth := url_depth s; contents := contents s;
     pdf_elements := pdf_elements s; fetched := fetched s;
     attempted := url :: attempted s |}.

Definition log_fetch (url : string) (s : state) : state :=
  {| visited_urls := visited_urls s; to_visit := to_visit s;
     url_depth := url_depth s; contents := contents s;
     pdf_elements := pdf_elements s; fetched := url :: fetched s;
     attempted := attempted s |}.

(** [d[k] = v] on an insertion-ordered dictionary: an existing key keeps
    its place, a new key goes last. *)
Fixpoint dict_set {V : Type} (k : string) (v : V) (d : list (string * V))
  : list (string * V) :=
  match d with
  | [] => [(k, v)]
  | (k', v') :: d' =>
      if String.eqb k k' then (k, v) :: d' else (k', v') :: dict_set k v d'
  end.

Fixpoint dict_get {V : Type} (k : string) (d : list (string * V)) : option V :=
  match d with
  | [] => None
  | (k', v') :: d' => if String.eqb k k' then Some v' else dict_get k d'
  end.

(** The result of [urlparse], as far as the program reads it. *)
Record parsed_url : Type := ParsedUrl {
  netloc : string;
  path : string
}.

(** A sitemap with the sitemaps of an index already retrieved. *)
#[warnings="-register-all"]
Inductive sitemap : Type :=
| UrlSet (locs : list string)
| SitemapIndex (children : list (option sitemap)).

(** What the user types at the prompt of the interactive mode. *)
Inductive selection : Type :=
| SelQuit
| SelAll
| SelIndices (numbers : list Z)
| SelInvalid.


(** ** A concrete instance of the collaborators

    Simple versions of the URL functions, enough for URLs of the shape
    [scheme://host/path?query#fragment], and small sites to run the
    converter on. *)

Module Sample.

Fixpoint take_until (stop : ascii -> bool) (s : string) : string :=
  match s with
  | EmptyString => EmptyString
  | String c s' => if stop c then EmptyString else String c (take_until stop s')
  end.

Fixpoint drop_until (stop : ascii -> bool) (s : string) : string :=
  match s with
  | EmptyString => EmptyString
  | String c s' => if stop c then s else drop_until stop s'
  end.

Definition ends_authority (c : ascii) : bool :=
  (Ascii.eqb c "/" || Ascii.eqb c "?" || Ascii.eqb c "#")%bool.

Definition ends_path (c : ascii) : bool :=
  (Ascii.eqb c "?" || Ascii.eqb c "#")%bool.

(** What follows the first [://], if there is one. *)
Fixpoint after_scheme (s : string) : option string :=
  match s with
  | EmptyString => None
  | String c s' =>
      match s with
      | String ":" (String "/" (String "/" rest)) => Some rest
      | _ => after_scheme s'
      end
  end.

Definition urlparse (url : string) : parsed_url :=
  match after_scheme url with
  | Some rest =>
      {| netloc := take_until ends_authority rest;
         path := take_until ends_path (drop_until ends_authority rest) |}
  | None => {| netloc := EmptyString; path := take_until ends_path url |}
  end.

(** The scheme and host of an absolute URL. *)
Definition origin (url : string) : string :=
  PyStr.split_first "://" url +:+ "://" +:+ netloc (urlparse url).

Definition urljoin (base href : string) : string :=
  match after_scheme href with
  | Some _ => href
  | None =>
      if PyStr.startswith "/" href then origin base +:+ href
      else PyStr.before_last "/" base +:+ "/" +:+ href
  end.

(** An anchor element and a page made of a title and a body. *)
Definition link (href text : string) : node :=
  Elem "a" [] [("href", href)] [Text text].

Definition html_page (title : string) (body : list node) : soup :=
  [Elem "html" [] []
     [Elem "head" [] [] [Elem "title" [] [] [Text title]];
      Elem "body" [] [] body]].

(** A site is a list of URLs with their pages. *)
Definition serve (site : list (string * soup)) (url : string) : option soup :=
  dict_get url site.

End Sample.

(** ** The converter *)

Section Converter.

(** *** Collaborators *)

(** [urllib.parse.urlparse] and [urllib.parse.urljoin]. *)
Variable urlparse : string -> parsed_url.
Variable urljoin : string -> string -> string.

(** The transport and the parser behind [download_page]: the parsed
    document of a URL, or [None] when the request fails, the content
    type is not HTML or the body is empty. *)
Variable http_get_html : string -> option soup.

(** Whether the PDF library accepts a text as paragraph markup; its
    [Paragraph] constructor raises otherwise. *)
Variable paragraph_ok : string -> bool.

(** [download_image img_url base_url]: the path of the converted image,
    or [None]; and whether the PDF library can load that file. *)
Variable download_image : string -> string -> option string.
Variable image_ok : string -> bool.

(** The sitemap behind a sitemap URL ([None] as argument: the standard
    locations are tried), or [None] when none can be retrieved. *)
Variable fetch_sitemap : option string -> option sitemap.

(** The answer of the user to the list of discovered URLs. *)
Variable prompt : list string -> selection.

(** Whether the optional word-processor library can be imported. *)
Variable docx_available : bool.

(** *** Construction *)

Variable base_url : string.
Variable opts : options.

(** [self.domain] *)
Definition domain : string := netloc (urlparse base_url).

(** [self.base_path]: the seed path up to its last slash. *)
Definition base_path : string :=
  PyStr.before_last "/" (path (urlparse base_url)) +:+ "/".

(** The state after [__init__]. *)
Definition init : state :=
  {| visited_urls := ∅; to_visit := [base_url];
     url_depth := {[ base_url := 0 ]}; contents := [];
     pdf_elements := []; fetched := []; attempted := [] |}.

(** *** URL scope filter *)

Definition non_document_extensions : list string :=
  [".pdf"; ".png"; ".jpg"; ".jpeg"; ".gif"; ".svg"; ".zip"; ".exe";
   ".json"; ".xml"; ".js"; ".css"].

(** [url.split("#")[0]] when the URL has a fragment. *)
Definition strip_fragment (url : string) : string :=
  if PyStr.has_char "#" url then PyStr.split_first "#" url else url.

(** [is_valid_url(url, from_url)]: the verdict and the state, whose
    depth map gains an entry when a depth is assigned. *)
Definition is_valid_url (url : string) (from_url : option string) (s : state)
  : bool * state :=
  let parsed := urlparse url in
  if (negb (String.eqb (netloc parsed) "") && negb (String.eqb (netloc parsed) domain))%bool
  then (false, s)
  else if negb (PyStr.startswith base_path (path parsed)) then (false, s)
  else
    let url' := strip_fragment url in
    if PyStr.endswith_any non_document_extensions (path parsed) then (false, s)
    else
      match max_depth opts, from_url with
      | Some limit, Some (String c p) =>
          let parent_depth := default 0 (url_depth s !! String c p) in
          if (limit <=? parent_depth)%Z then (false, s)
          else (true, set_url_depth (<[ url' := parent_depth + 1 ]> (url_depth s)) s)
      | _, _ => (true, s)
      end.

(** [extract_links(soup, current_url)]: every anchor is resolved and
    validated; the ones that pass and are not visited are returned. *)
Fixpoint extract_links_from (hrefs : list string) (current_url : string)
         (s : state) : list string * state :=
  match hrefs with
  | [] => ([], s)
  | href :: hrefs' =>
      let absolute_url := urljoin current_url href in
      let '(ok, s1) := is_valid_url absolute_url (Some current_url) s in
      let '(links, s2) := extract_links_from hrefs' current_url s1 in
      if (ok && negb (bool_decide (absolute_url ∈ visited_urls s)))%bool
      then (absolute_url :: links, s2)
      else (links, s2)
  end.

Definition extract_links (d : soup) (current_url : string) (s : state)
  : list string * state :=
  extract_links_from (Dom.anchors d) current_url s.

(** *** Content and category filters *)

(** [[k.lower().strip() for k in value.split(',')]] *)
Definition keywords (value : string) : list string :=
  List.map (fun k => PyStr.strip (PyStr.lower k)) (PyStr.split "," value).

(** [check_content_filters(soup, url)] *)
Definition check_content_filters (d : soup) : bool :=
  if (negb (truthy (contains opts)) && negb (truthy (not_contains opts)))%bool
  then true
  else
    let page_text := PyStr.lower (Dom.get_text_all d) in
    if (truthy (contains opts) &&
        negb (existsb (fun keyword => PyStr.contains keyword page_text)
                      (keywords (default "" (contains opts)))))%bool
    then false
    else if (truthy (not_contains opts) &&
             existsb (fun keyword => PyStr.contains keyword page_text)
                     (keywords (default "" (not_contains opts))))%bool
    then false
    else true.

Definition category_selectors : list Dom.selector :=
  [ [Dom.by_class "breadcrumbs"];
    [Dom.Compound None ["nav-item"; "active"]];
    [Dom.by_class "sidebar"; Dom.by_class "active"];
    [Dom.by_tag "header"; Dom.by_class "category"] ].

(** [get_category(soup)]: the stripped text of the first location that
    has an element. *)
Fixpoint get_category_from (sels : list Dom.selector) (d : soup) : option string :=
  match sels with
  | [] => None
  | sel :: sels' =>
      match Dom.select_one sel d with
      | Some category_elem => Some (PyStr.strip (Dom.get_text category_elem))
      | None => get_category_from sels' d
      end
  end.

Definition get_category (d : soup) : option string :=
  get_category_from category_selectors d.

(** The category test of [process_page]: [true] when the page goes on. *)
Definition check_category (d : soup) : bool :=
  if truthy (categories opts) then
    let page_category := get_category d in
    if truthy page_category then
      let cats := List.map PyStr.strip (PyStr.split "," (default "" (categories opts))) in
      existsb (fun cat => PyStr.contains (PyStr.lower cat)
                                         (PyStr.lower (default "" page_category)))
              cats
    else true
  else true.

(** *** Page processing *)

(** The regions removed before the main content is taken. *)
Definition chrome_selectors : list Dom.compound :=
  [Dom.by_class "navbar"; Dom.by_class "footer"; Dom.by_class "sidebar";
   Dom.by_tag "nav"; Dom.by_class "cookie-banner";
   Dom.by_class "announcement"; Dom.by_class "header"].

(** The two nested [for] loops that call [element.decompose()]. *)
Definition strip_chrome (d : soup) : soup :=
  fold_left (fun d c => Dom.decompose_all c d) chrome_selectors d.

(** [select_one('main') or select_one('article') or
    select_one('.content')], then [soup.body]. *)
Definition main_content (d : soup) : option node :=
  match Dom.select_one [Dom.by_tag "main"] d with
  | Some n => Some n
  | None =>
      match Dom.select_one [Dom.by_tag "article"] d with
      | Some n => Some n
      | None =>
          match Dom.select_one [Dom.by_class "content"] d with
          | Some n => Some n
          | None => Dom.find_tag "body" d
          end
      end
  end.

(** [soup.title.string if soup.title else url.split('/')[-1]] *)
Definition page_title (d : soup) (url : string) : option string :=
  match Dom.find_tag "title" d with
  | Some t => Dom.node_string t
  | None => Some (PyStr.split_last "/" url)
  end.

(** How an f-string prints a title. *)
Definition show_title (t : option string) : string := default "None" t.

(** [Paragraph(text, style)]: [None] stands for the exception of the
    PDF library on text it cannot parse. *)
Definition new_paragraph (text : string) (style : pstyle) : option flowable :=
  if paragraph_ok text then Some (Paragraph text style) else None.

Definition nonempty (s : string) : bool :=
  match s with
  | EmptyString => false
  | String _ _ => true
  end.

Definition tag_in (names : list string) (n : node) : bool :=
  existsb (String.eqb (fst (Dom.head_of n))) names.

(** One turn of the loop over the elements of the main content.  The
    scaling of an image wider than 450 points is left to the layout
    engine here. *)
Definition block_of (url : string) (e : list Dom.head * node)
  : option (list flowable) :=
  let element := snd e in
  let text := PyStr.strip (Dom.get_text element) in
  if tag_in ["h1"; "h2"; "h3"; "h4"] element then
    if nonempty text then p ← new_paragraph text HeaderStyle; Some [p]
    else Some []
  else if tag_in ["p"] element then
    if nonempty text then p ← new_paragraph text TextStyle; Some [p]
    else Some []
  else if (tag_in ["pre"] element ||
           (tag_in ["div"] element && Dom.has_class "code" (Dom.head_of element)))%bool then
    if nonempty text then Some [Preformatted text] else Some []
  else if (tag_in ["code"] element &&
           negb (String.eqb (fst (List.hd (EmptyString, []) (fst e))) "pre"))%bool then
    if nonempty text then Some [Preformatted text] else Some []
  else if (tag_in ["img"] element && truthy (Dom.attr "src" element))%bool then
    match download_image (default "" (Dom.attr "src" element)) url with
    | Some img_path =>
        if image_ok img_path then Some [Image img_path; Spacer] else Some []
    | None => Some []
    end
  else Some [].

Fixpoint extract_blocks (url : string) (es : list (list Dom.head * node))
  : option (list flowable) :=
  match es with
  | [] => Some []
  | e :: es' =>
      b ← block_of url e;
      bs ← extract_blocks url es';
      Some (b ++ bs)
  end.

Definition block_tags : list string :=
  ["h1"; "h2"; "h3"; "h4"; "p"; "pre"; "code"; "img"; "div"].

(** The loop [for link in new_links] that appends to [self.to_visit]. *)
Fixpoint enqueue (links : list string) (s : state) : state :=
  match links with
  | [] => s
  | link :: links' =>
      enqueue links'
        (if (bool_decide (link ∈ visited_urls s) || bool_decide (link ∈ to_visit s))%bool
         then s
         else set_to_visit (to_visit s ++ [link]) s)
  end.

(** The part of [process_page] after the content entry is stored; an
    exception anywhere in it makes [process_page] return the empty
    list, with the state as it is at that moment. *)
Definition build_elements (d : soup) (main : node) (url : string) (s : state)
  : list flowable * state :=
  let title := page_title d url in
  match new_paragraph ("<b>" +:+ show_title title +:+ "</b>") TitleStyle,
        new_paragraph ("Source: " +:+ url) URLStyle with
  | Some p1, Some p2 =>
      let s1 :=
        if use_sitemap opts then s
        else let '(new_links, s') := extract_links d url s in
             enqueue new_links s' in
      match extract_blocks url (Dom.find_all block_tags main) with
      | Some blocks => ([p1; p2] ++ blocks ++ [PageBreak], s1)
      | None => ([], s1)
      end
  | _, _ => ([], s)
  end.

(** [process_page(url)] *)
Definition process_page (url : string) (s : state) : list flowable * state :=
  let s := log_fetch url s in
  match http_get_html url with
  | None => ([], s)
  | Some page =>
      if negb (check_content_filters page) then ([], s)
      else if negb (check_category page) then ([], s)
      else
        let d := strip_chrome page in
        match main_content d with
        | None => ([], s)
        | Some main =>
            let s1 :=
              set_contents
                (dict_set url
                   {| pc_title := page_title d url; pc_html := main;
                      pc_text := Dom.get_text main; pc_url := url |}
                   (contents s)) s in
            build_elements d main url s1
        end
  end.

(** *** The crawl loop *)

(** A [while] loop: [cond] is tested first; [fuel] bounds the number of
    turns, and [None] means that it ran out. *)
Fixpoint while {S : Type} (cond : S -> bool) (body : S -> S) (fuel : nat) (s : S)
  : option S :=
  if cond s then
    match fuel with
    | O => None
    | S fuel' => while cond body fuel' (body s)
    end
  else Some s.

(** [self.to_visit and len(self.visited_urls) < limit] *)
Definition crawl_cond_upto (limit : Z) (s : state) : bool :=
  (match to_visit s with [] => false | _ :: _ => true end &&
   (Z.of_nat (size (visited_urls s)) <? limit)%Z)%bool.

(** The condition of the main loop: the limit is
    [self.options['max_pages']]. *)
Definition crawl_cond (s : state) : bool := crawl_cond_upto (max_pages opts) s.

(** One turn of the main loop of [run]. *)
Definition crawl_body (s : state) : state :=
  match to_visit s with
  | [] => s
  | current_url :: rest =>
      let s1 := set_to_visit rest s in
      if bool_decide (current_url ∈ visited_urls s1) then s1
      else
        let s2 := visit current_url s1 in
        let '(elements, s3) := process_page current_url s2 in
        set_pdf_elements (pdf_elements s3 ++ elements) s3
  end.

Definition crawl (fuel : nat) (s : state) : option state :=
  while crawl_cond crawl_body fuel s.

(** *** Seeding the frontier *)

(** The URLs of a sitemap: the entries of a URL set that pass the scope
    filter (called without a parent, so no depth is assigned), and the
    URLs of the sitemaps of an index, one after the other. *)
Fixpoint sitemap_urls (s : state) (sm : sitemap) : list string :=
  match sm with
  | UrlSet locs => List.filter (fun loc => fst (is_valid_url loc None s)) locs
  | SitemapIndex subs =>
      flat_map (fun sub => match sub with
                           | Some sm' => sitemap_urls s sm'
                           | None => []
                           end) subs
  end.

(** [parse_sitemap(sitemap_url)] *)
Definition parse_sitemap (url : option string) (s : state) : list string :=
  match fetch_sitemap (if truthy url then url else None) with
  | Some sm => sitemap_urls s sm
  | None => []
  end.

(** The local variables of the discovery crawl of [interactive_mode],
    next to the converter state it changes. *)
Record discovery : Type := Discovery {
  d_state : state;
  temp_visited : gset string;
  d_to_visit : list string;
  discovered_urls : list string
}.

Definition discover_cond (ds : discovery) : bool :=
  (match d_to_visit ds with [] => false | _ :: _ => true end &&
   (Z.of_nat (size (temp_visited ds)) <? max_pages opts)%Z)%bool.

Fixpoint discover_enqueue (links : list string) (seen : gset string)
         (queue : list string) : list string :=
  match links with
  | [] => queue
  | link :: links' =>
      discover_enqueue links' seen
        (if (bool_decide (link ∈ seen) || bool_decide (link ∈ queue))%bool
         then queue else queue ++ [link])
  end.

Definition discover_body (ds : discovery) : discovery :=
  match d_to_visit ds with
  | [] => ds
  | current_url :: rest =>
      if bool_decide (current_url ∈ temp_visited ds)
      then {| d_state := d_state ds; temp_visited := temp_visited ds;
              d_to_visit := rest; discovered_urls := discovered_urls ds |}
      else
        let seen := {[current_url]} ∪ temp_visited ds in
        let found := discovered_urls ds ++ [current_url] in
        let s1 := log_fetch current_url (d_state ds) in
        match http_get_html current_url with
        | Some page =>
            let '(new_links, s2) := extract_links page current_url s1 in
            {| d_state := s2; temp_visited := seen;
               d_to_visit := discover_enqueue new_links seen rest;
               discovered_urls := found |}
        | None =>
            {| d_state := s1; temp_visited := seen; d_to_visit := rest;
               discovered_urls := found |}
        end
  end.

(** [[urls[i] for i in indices if 0 <= i < len(urls)]] where the
    indices are the typed numbers minus one. *)
Definition pick (urls : list string) (numbers : list Z) : list string :=
  flat_map (fun n => let i := (n - 1)%Z in
                     if ((0 <=? i)%Z && (i <? Z.of_nat (length urls))%Z)%bool
                     then match urls !! Z.to_nat i with
                          | Some u => [u]
                          | None => []
                          end
                     else []) numbers.

(** [interactive_mode()]: the selected URLs, or the exit code of
    [sys.exit]; [None] when the fuel of the discovery loop runs out. *)
Definition interactive_mode (fuel : nat) (s : state)
  : option ((list string + Z) * state) :=
  found ← (if use_sitemap opts
           then Some (parse_sitemap (sitemap_url opts) s, s)
           else ds ← while discover_cond discover_body fuel
                        {| d_state := s; temp_visited := ∅;
                           d_to_visit := [base_url]; discovered_urls := [] |};
                Some (discovered_urls ds, d_state ds));
  let '(urls, s') := found in
  Some (match prompt urls with
        | SelQuit => inr 0%Z
        | SelAll => inl urls
        | SelIndices numbers => inl (pick urls numbers)
        | SelInvalid => inr 1%Z
        end, s').

(** *** Renderers *)

(** [str(main_content)], the serializer of the parser library, and
    [doc.build], the PDF layout engine, which may fail. *)
Variable serialize : node -> string.
Variable pdf_build_ok : list flowable -> bool.

(** Whether the word-processor library accepts a value as the text of
    a heading or a paragraph; it raises on a text that cannot go into
    its XML, such as one with a control character. *)
Variable docx_text_ok : option string -> bool.

Definition nl : string := String (ascii_of_nat 10) EmptyString.
Definition dq : string := String (ascii_of_nat 34) EmptyString.

(** The calls made on the word-processor document. *)
Inductive docx_op : Type :=
| AddHeading (text : option string) (level : Z)
| AddParagraph (text : string)
| AddPageBreak.

(** What a renderer that completes writes to [self.output_path].  A
    renderer that raises returns False; what it had written to the file
    before is not represented. *)
Inductive artifact : Type :=
| PdfFile (elements : list flowable)
| TextFile (content : string)
| JsonFile (base : string) (pages : list (string * option string * string))
| DocxFile (ops : list docx_op).

(** [create_pdf()]; the table of contents and a page break are
    inserted at the head of [self.pdf_elements]. *)
Definition create_pdf (s : state) : option artifact :=
  match pdf_elements s with
  | [] => None
  | _ :: _ =>
      let elements :=
        if create_toc opts then TableOfContents :: PageBreak :: pdf_elements s
        else pdf_elements s in
      if pdf_build_ok elements then Some (PdfFile elements) else None
  end.

(** [url.split("//")[1].replace("/", "_")], which raises when the URL
    has no double slash. *)
Definition html_id (url : string) : option string :=
  PyStr.replace_char "/" "_" <$> (PyStr.split "//" url !! 1%nat).

Definition html_head : string :=
  "<!DOCTYPE html>" +:+ nl +:+ "<html>" +:+ nl +:+ "<head>" +:+ nl +:+
  "<meta charset=" +:+ dq +:+ "UTF-8" +:+ dq +:+ ">" +:+ nl +:+
  "<title>Documentation: " +:+ base_url +:+ "</title>" +:+ nl +:+
  "<style>" +:+ nl +:+
  "body { font-family: Arial, sans-serif; max-width: 800px; margin: 0 auto; padding: 20px; }" +:+ nl +:+
  "h1 { color: #333; }" +:+ nl +:+
  "pre { background-color: #f5f5f5; padding: 10px; border-radius: 5px; }" +:+ nl +:+
  ".source { color: #666; font-size: 0.8em; margin-bottom: 20px; }" +:+ nl +:+
  "</style>" +:+ nl +:+
  "</head>" +:+ nl +:+ "<body>" +:+ nl.

Definition html_toc_entry (e : string * page_content) : option string :=
  i ← html_id (fst e);
  Some ("<li><a href=" +:+ dq +:+ "#" +:+ i +:+ dq +:+ ">" +:+
        show_title (pc_title (snd e)) +:+ "</a></li>" +:+ nl).

Definition html_section (e : string * page_content) : option string :=
  i ← html_id (fst e);
  Some ("<div id=" +:+ dq +:+ i +:+ dq +:+ ">" +:+ nl +:+
        "<h1>" +:+ show_title (pc_title (snd e)) +:+ "</h1>" +:+ nl +:+
        "<div class=" +:+ dq +:+ "source" +:+ dq +:+ ">Source: <a href=" +:+ dq +:+
        fst e +:+ dq +:+ ">" +:+ fst e +:+ "</a></div>" +:+ nl +:+
        serialize (pc_html (snd e)) +:+
        nl +:+ "<hr>" +:+ nl +:+ "</div>" +:+ nl).

(** The pieces written by a loop over [self.contents], or [None] when
    one of them raises. *)
Definition write_each {A : Type} (f : A -> option string) (l : list A)
  : option string :=
  String.concat EmptyString <$> mapM f l.

(** [create_html()] *)
Definition create_html (s : state) : option artifact :=
  toc ← (if (create_toc opts && match contents s with [] => false | _ => true end)%bool
         then body ← write_each html_toc_entry (contents s);
              Some ("<h2>Table of Contents</h2>" +:+ nl +:+ "<ul>" +:+ nl +:+
                    body +:+ "</ul>" +:+ nl +:+ "<hr>" +:+ nl)
         else Some EmptyString);
  sections ← write_each html_section (contents s);
  Some (TextFile (html_head +:+ toc +:+ sections +:+ "</body>" +:+ nl +:+ "</html>")).

(** [create_json()] *)
Definition create_json (s : state) : option artifact :=
  Some (JsonFile base_url
          (List.map (fun e => (fst e, pc_title (snd e), pc_text (snd e)))
                    (contents s))).

(** The anchor of a title:
    [title.lower().replace(' ', '-').replace(':', '').replace('.', '')]. *)
Definition markdown_anchor (title : string) : string :=
  PyStr.replace_char "." EmptyString
    (PyStr.replace_char ":" EmptyString
       (PyStr.replace_char " " "-" (PyStr.lower title))).

(** The line of a page in the table of contents; a title that is not a
    string has no [lower] and raises. *)
Definition markdown_toc_entry (e : string * page_content) : option string :=
  title ← pc_title (snd e);
  Some ("- [" +:+ title +:+ "](#" +:+ markdown_anchor title +:+ ")" +:+ nl).

Definition markdown_heading (e : string * page_content) : option string :=
  title ← pc_title (snd e);
  Some ("## " +:+ title +:+ " <a id=" +:+ dq +:+ markdown_anchor title +:+ dq +:+
        "></a>" +:+ nl +:+ nl).

(** The paragraphs of a text: the stripped, non-empty pieces between
    blank lines. *)
Definition markdown_paragraphs (text : string) : list string :=
  List.filter nonempty (List.map PyStr.strip (PyStr.split (nl +:+ nl) text)).

Definition markdown_section (e : string * page_content) : option string :=
  heading ← markdown_heading e;
  Some (heading +:+
        "Source: [" +:+ fst e +:+ "](" +:+ fst e +:+ ")" +:+ nl +:+ nl +:+
        String.concat EmptyString
          (List.map (fun p => p +:+ nl +:+ nl) (markdown_paragraphs (pc_text (snd e)))) +:+
        "---" +:+ nl +:+ nl).

(** [create_markdown()] *)
Definition create_markdown (s : state) : option artifact :=
  toc ← (if (create_toc opts && match contents s with [] => false | _ => true end)%bool
         then body ← write_each markdown_toc_entry (contents s);
              Some ("## Table of Contents" +:+ nl +:+ nl +:+ body +:+
                    nl +:+ "---" +:+ nl +:+ nl)
         else Some EmptyString);
  sections ← write_each markdown_section (contents s);
  Some (TextFile ("# Documentation: " +:+ base_url +:+ nl +:+ nl +:+ toc +:+ sections)).

Definition docx_page (e : string * page_content) : list docx_op :=
  [AddHeading (pc_title (snd e)) 1;
   AddParagraph ("Source: " +:+ fst e);
   AddParagraph (pc_text (snd e));
   AddPageBreak].

(** The calls that [create_docx] makes on the document, in order. *)
Definition docx_calls (s : state) : list docx_op :=
  [AddHeading (Some ("Documentation: " +:+ base_url)) 0] ++
  (if create_toc opts
   then [AddHeading (Some "Table of Contents") 1;
         AddParagraph ("To update this table, right-click and select " +:+
                       dq +:+ "Update Field" +:+ dq +:+ ".");
         AddParagraph EmptyString]
   else []) ++
  flat_map docx_page (contents s).

(** Whether the library carries out a call, or raises. *)
Definition docx_op_ok (op : docx_op) : bool :=
  match op with
  | AddHeading text _ => docx_text_ok text
  | AddParagraph text => docx_text_ok (Some text)
  | AddPageBreak => true
  end.

(** [create_docx()]: False when the library cannot be imported and
    when one of the calls raises. *)
Definition create_docx (s : state) : option artifact :=
  if docx_available then
    if forallb docx_op_ok (docx_calls s) then Some (DocxFile (docx_calls s))
    else None
  else None.

(** *** The run *)

(** The dispatch on [self.options['format'].lower()] at the end of
    [run]; the result of [run] is whether the renderer completed. *)
Definition render (s : state) : option artifact :=
  let f := PyStr.lower (format opts) in
  if String.eqb f "pdf" then create_pdf s
  else if String.eqb f "html" then create_html s
  else if String.eqb f "json" then create_json s
  else if (String.eqb f "md" || String.eqb f "markdown")%bool then create_markdown s
  else if String.eqb f "docx" then create_docx s
  else None.

(** How a run ends: [run] returns with a verdict, or the interactive
    mode leaves the process through [sys.exit]. *)
Inductive outcome : Type :=
| Returned (ok : bool) (written : option artifact) (s : state)
| Exited (code : Z) (s : state).

(** The state at the entry of the main loop, or the exit code. *)
Definition seed (fuel : nat) : option ((state + Z * state)) :=
  let s0 := init in
  let s1 := if use_sitemap opts
            then set_to_visit (parse_sitemap (sitemap_url opts) s0) s0
            else s0 in
  if interactive opts then
    r ← interactive_mode fuel s1;
    Some (match fst r with
          | inl urls => inl (set_to_visit urls (snd r))
          | inr code => inr (code, snd r)
          end)
  else Some (inl s1).

(** [run()] *)
Definition run (fuel : nat) : option outcome :=
  r ← seed fuel;
  match r with
  | inr (code, s) => Some (Exited code s)
  | inl s =>
      s' ← crawl fuel s;
      let written := render s' in
      Some (Returned (bool_decide (is_Some written)) written s')
  end.


(** The values that the argument parser of [main] accepts for
    [--format]. *)
Definition format_choices : list string :=
  ["pdf"; "html"; "json"; "docx"; "md"; "markdown"].

(** [main()], as far as the format goes: the argument parser refuses a
    value outside its choices, and the process exits with status 2 before
    a converter is built (the state given is the initial one, in which
    nothing is fetched); otherwise the converter is built from the
    arguments and run. *)
Definition main (fuel : nat) : option outcome :=
  if existsb (String.eqb (format opts)) format_choices then run fuel
  else Some (Exited 2 init).

(** *** Vocabulary of the properties *)

(** [piece] occurs in [whole] as a contiguous part. *)
Definition occurs_in (piece whole : string) : Prop :=
  exists pre suf, whole = pre +:+ piece +:+ suf.

(** A keyword occurs in a text when letter case is ignored. *)
Definition ci_occurs (keyword text : string) : Prop :=
  occurs_in (PyStr.lower keyword) (PyStr.lower text).

(** The keywords a comma-separated option value lists. *)
Definition keyword_list (value : string) : list string :=
  List.map PyStr.strip (PyStr.split "," value).

(** The acceptance condition of the content filter in the words of the
    specification: some include keyword occurs when an include list is
    configured, and no exclude keyword occurs when an exclude list is. *)
Definition content_filter_spec (d : soup) : Prop :=
  (truthy (contains opts) = false \/
   exists k, In k (keyword_list (default "" (contains opts))) /\
             ci_occurs k (Dom.get_text_all d)) /\
  (truthy (not_contains opts) = false \/
   forall k, In k (keyword_list (default "" (not_contains opts))) ->
             ~ ci_occurs k (Dom.get_text_all d)).


(** Induction on a node with the property known for its children. *)
Fixpoint node_induction (P : node -> Prop)
         (HT : forall s, P (Text s))
         (HE : forall t cl ats cs, Forall P cs -> P (Elem t cl ats cs))
         (n : node) : P n :=
  match n with
  | Text s => HT s
  | Elem t cl ats cs =>
      HE t cl ats cs
         ((fix all (l : list node) : Forall P l :=
             match l with
             | [] => List.Forall_nil P
             | c :: l' => @List.Forall_cons node P c l' (node_induction P HT HE c) (all l')
             end) cs)
  end.

(** A document without the elements matched by one of the compound
    selectors [cs], and without everything below such an element. *)
Fixpoint without_in (cs : list Dom.compound) (n : node) : list node :=
  match n with
  | Text _ => [n]
  | Elem t cl ats ch =>
      if existsb (fun c => Dom.matches c (t, cl)) cs then []
      else [Elem t cl ats (flat_map (without_in cs) ch)]
  end.

Definition without (cs : list Dom.compound) (d : soup) : soup :=
  flat_map (without_in cs) d.


(** The frontier of [s'] is the one of [s] followed by URLs that are
    pairwise different, not visited in [s] and not queued in [s]. *)
Definition queue_extends (s s' : state) : Prop :=
  exists new, to_visit s' = to_visit s ++ new /\
              NoDup new /\
              forall x, x ∈ new -> (x ∉ visited_urls s) /\ (x ∉ to_visit s).

(** The states of the main loop that starts in [s0]. *)
Inductive crawl_reaches (s0 : state) : state -> Prop :=
| reaches_start : crawl_reaches s0 s0
| reaches_turn (s : state) :
    crawl_reaches s0 s -> crawl_cond s = true -> crawl_reaches s0 (crawl_body s).


(** What the main loop keeps true of the visited set and the records:
    the trace of additions has no repetition and lists the set, and
    there are at most as many content entries as visited URLs. *)
Definition crawl_inv (s : state) : Prop :=
  NoDup (attempted s) /\
  (forall u, u ∈ visited_urls s <-> u ∈ attempted s) /\
  size (visited_urls s) = length (attempted s) /\
  (length (contents s) <= size (visited_urls s))%nat.

(** A frontier without repetition and without visited URLs. *)
Definition frontier_inv (s : state) : Prop :=
  NoDup (to_visit s) /\ forall x, x ∈ to_visit s -> x ∉ visited_urls s.


(** A state in which nothing is visited and nothing collected yet. *)
Definition fresh (s : state) : Prop :=
  visited_urls s = ∅ /\ attempted s = [] /\ contents s = [] /\ pdf_elements s = [].


(** The format selectors that [run] knows, letter case ignored. *)
Definition supported_format (f : string) : bool :=
  existsb (String.eqb (PyStr.lower f)) ["pdf"; "html"; "json"; "md"; "markdown"; "docx"].

(** The state in which a page that passed the filters has its content
    entry stored. *)
Definition stored (url : string) (d : soup) (main : node) (s : state) : state :=
  set_contents
    (dict_set url
       {| pc_title := page_title d url; pc_html := main;
          pc_text := Dom.get_text main; pc_url := url |}
       (contents (log_fetch url s)))
    (log_fetch url s).



(** The URLs a sitemap lists, in its order, before any filtering. *)
Fixpoint sitemap_locs (sm : sitemap) : list string :=
  match sm with
  | UrlSet locs => locs
  | SitemapIndex subs =>
      flat_map (fun sub => match sub with
                           | Some sm' => sitemap_locs sm'
                           | None => []
                           end) subs
  end.

(** Induction on a sitemap with the property known for the sitemaps of
    an index. *)
Fixpoint sitemap_induction (P : sitemap -> Prop)
         (HU : forall locs, P (UrlSet locs))
         (HI : forall subs,
             Forall (fun sub => match sub with Some sm => P sm | None => True end) subs ->
             P (SitemapIndex subs))
         (sm : sitemap) : P sm :=
  match sm with
  | UrlSet locs => HU locs
  | SitemapIndex subs =>
      HI subs
         ((fix all (l : list (option sitemap))
             : Forall (fun sub => match sub with Some sm => P sm | None => True end) l :=
             match l with
             | [] => List.Forall_nil _
             | sub :: l' =>
                 @List.Forall_cons _ _ sub l'
                   (match sub as o
                          return (match o with Some sm => P sm | None => True end)
                    with
                    | Some sm' => sitemap_induction P HU HI sm'
                    | None => I
                    end)
                   (all l')
             end) subs)
  end.

(** A URL passes the host, path and extension tests of the scope
    filter: the filter accepts it when no parent is given. *)
Definition in_scope (url : string) : bool := fst (is_valid_url url None init).


(** The output path that [main] gives the converter: [output.<format>]
    when no path is given, and the given path with [.<format>] appended
    unless it ends so. *)
Definition output_path (output : option string) (fmt : string) : string :=
  if negb (truthy output) then "output." +:+ fmt
  else if negb (PyStr.endswith ("." +:+ fmt) (default "" output))
       then default "" output +:+ "." +:+ fmt
       else default "" output.

(** The upper-case letters. *)
Definition is_upper (c : ascii) : bool :=
  (Nat.leb 65 (nat_of_ascii c) && Nat.leb (nat_of_ascii c) 90)%bool.

(** The entries have different keys, all of them visited, and each
    carries its key as its URL. *)
Definition contents_inv (s : state) : Prop :=
  NoDup (List.map fst (contents s)) /\
  (forall k, In k (List.map fst (contents s)) -> k ∈ visited_urls s) /\
  Forall (fun e => pc_url (snd e) = fst e) (contents s).

(** What the discovery crawl keeps true: the discovered URLs are the
    members of its visited set, each listed once, each downloaded once,
    and the converter keeps its visited set, frontier, entries and
    elements. *)
Definition discovery_inv (s : state) (ds : discovery) : Prop :=
  NoDup (discovered_urls ds) /\
  (forall u, u ∈ temp_visited ds <-> u ∈ discovered_urls ds) /\
  size (temp_visited ds) = length (discovered_urls ds) /\
  fetched (d_state ds) = rev (discovered_urls ds) ++ fetched s /\
  visited_urls (d_state ds) = visited_urls s /\ to_visit (d_state ds) = to_visit s /\
  contents (d_state ds) = contents s /\ pdf_elements (d_state ds) = pdf_elements s /\
  attempted (d_state ds) = attempted s.

(** The links that the crawl follows from a URL: the in-scope URLs that
    its page links to outside the chrome regions, when the page is
    retrieved, passes both filters, has a main content and the PDF
    library accepts its title and source lines; no link of any other
    page is followed. *)
Definition followed_links (u : string) : list string :=
  match http_get_html u with
  | Some page =>
      let d := without chrome_selectors page in
      match main_content d with
      | Some _ =>
          if (check_content_filters page && check_category page &&
              paragraph_ok ("<b>" +:+ show_title (page_title d u) +:+ "</b>") &&
              paragraph_ok ("Source: " +:+ u))%bool
          then List.filter in_scope (List.map (urljoin u) (Dom.anchors d))
          else []
      | None => []
      end
  | None => []
  end.




(** *** Facts about the string primitives *)

Lemma append_assoc (a b c : string) : (a +:+ b) +:+ c = a +:+ (b +:+ c).
Proof. induction a as [|x a IH]; simpl; [reflexivity | now f_equal]. Qed.

Lemma append_empty_r (a : string) : a +:+ EmptyString = a.
Proof. induction a as [|x a IH]; simpl; [reflexivity | now f_equal]. Qed.

Lemma startswith_spec (p s : string) :
  PyStr.startswith p s = true <-> exists suf, s = p +:+ suf.
Proof.
  revert s; induction p as [|a p IH]; intros s; simpl.
  - split; [intros _; now exists s | reflexivity].
  - destruct s as [|b s].
    + split; [discriminate | intros [suf H]; discriminate].
    + destruct (Ascii.eqb_spec a b) as [->|Hne].
      * rewrite IH. split; intros [suf H]; exists suf.
        -- now rewrite H.
        -- now inversion H.
      * split; [discriminate | intros [suf H]; inversion H; congruence].
Qed.

Lemma contains_spec (needle hay : string) :
  PyStr.contains needle hay = true <-> occurs_in needle hay.
Proof.
  unfold occurs_in. induction hay as [|c hay IH].
  - simpl. rewrite orb_false_r, startswith_spec. split.
    + intros [suf H]. now exists EmptyString, suf.
    + intros [pre [suf H]]. destruct pre; simpl in H; [now exists suf | discriminate].
  - simpl. rewrite orb_true_iff, startswith_spec, IH. split.
    + intros [[suf H] | [pre [suf H]]].
      * now exists EmptyString, suf.
      * exists (String c pre), suf. simpl. now rewrite H.
    + intros [pre [suf H]]. destruct pre as [|x pre]; simpl in H.
      * left. now exists suf.
      * right. inversion H. now exists pre, suf.
Qed.

Lemma is_space_lower (c : ascii) : PyStr.is_space (PyStr.lower_ascii c) = PyStr.is_space c.
Proof. destruct c as [[] [] [] [] [] [] [] []]; reflexivity. Qed.

Lemma lower_lstrip (s : string) : PyStr.lower (PyStr.lstrip s) = PyStr.lstrip (PyStr.lower s).
Proof.
  induction s as [|c s IH]; simpl; [reflexivity |].
  rewrite is_space_lower. now destruct (PyStr.is_space c).
Qed.

Lemma lower_rstrip (s : string) : PyStr.lower (PyStr.rstrip s) = PyStr.rstrip (PyStr.lower s).
Proof.
  induction s as [|c s IH]; simpl; [reflexivity |].
  rewrite <- IH, is_space_lower.
  destruct (PyStr.rstrip s); simpl; [now destruct (PyStr.is_space c) | reflexivity].
Qed.

Lemma lower_strip (s : string) : PyStr.lower (PyStr.strip s) = PyStr.strip (PyStr.lower s).
Proof. unfold PyStr.strip. now rewrite lower_rstrip, lower_lstrip. Qed.

Lemma keywords_lower (value : string) :
  keywords value = List.map PyStr.lower (keyword_list value).
Proof.
  unfold keywords, keyword_list. rewrite List.map_map.
  apply List.map_ext. intros k. now rewrite lower_strip.
Qed.

(** Some keyword of the list is found by the program exactly when some
    listed keyword occurs in the text, case ignored. *)
Lemma any_keyword_spec (value text : string) :
  existsb (fun keyword => PyStr.contains keyword (PyStr.lower text)) (keywords value) = true
  <-> exists k, In k (keyword_list value) /\ ci_occurs k text.
Proof.
  rewrite keywords_lower, existsb_exists. split.
  - intros [x [Hin Hc]]. apply in_map_iff in Hin as [k [<- Hk]].
    exists k. split; [assumption | now apply contains_spec].
  - intros [k [Hk Hc]]. exists (PyStr.lower k). split.
    + now apply in_map.
    + now apply contains_spec.
Qed.


(** *** The content filter *)

Lemma not_true_iff_false' (b : bool) : b = false <-> ~ b = true.
Proof. destruct b; split; congruence. Qed.

(** C7: the content filter accepts a page if and only if (no include
    list is configured or some include keyword occurs in the full text of
    the page, case ignored) and (no exclude list is configured or no
    exclude keyword occurs in it).  In particular a page in which an
    exclude keyword occurs is rejected whatever the include list says,
    and without filters every page is accepted. *)
Theorem check_content_filters_correct (d : soup) :
  (check_content_filters d = true <-> content_filter_spec d) /\
  (forall k, truthy (not_contains opts) = true ->
             In k (keyword_list (default "" (not_contains opts))) ->
             ci_occurs k (Dom.get_text_all d) ->
             check_content_filters d = false) /\
  (truthy (contains opts) = false -> truthy (not_contains opts) = false ->
   check_content_filters d = true).
Proof.
  assert (Hiff : check_content_filters d = true <-> content_filter_spec d).
  { unfold check_content_filters, content_filter_spec.
    pose proof (any_keyword_spec (default "" (contains opts)) (Dom.get_text_all d)) as Hin.
    pose proof (any_keyword_spec (default "" (not_contains opts)) (Dom.get_text_all d)) as Hex.
    destruct (truthy (contains opts)) eqn:Hc; destruct (truthy (not_contains opts)) eqn:Hn; simpl.
    - destruct (existsb _ (keywords (default "" (contains opts)))) eqn:E1; simpl.
      + destruct (existsb _ (keywords (default "" (not_contains opts)))) eqn:E2; simpl.
        * split; [discriminate |]. intros [_ [Hf | Hno]]; [discriminate |].
          destruct (proj1 Hex eq_refl) as [k [Hk Hocc]]. now destruct (Hno k Hk).
        * split; [intros _ | reflexivity]. split.
          -- right. now apply Hin.
          -- right. intros k Hk Hocc.
             assert (false = true) by (apply Hex; eauto). discriminate.
      + split; [discriminate |]. intros [[Hf | Hsome] _]; [discriminate |].
        assert (false = true) by (apply Hin; assumption). discriminate.
    - destruct (existsb _ (keywords (default "" (contains opts)))) eqn:E1; simpl.
      + split; [intros _ | reflexivity]. split; [right; now apply Hin | now left].
      + split; [discriminate |]. intros [[Hf | Hsome] _]; [discriminate |].
        assert (false = true) by (apply Hin; assumption). discriminate.
    - destruct (existsb _ (keywords (default "" (not_contains opts)))) eqn:E2; simpl.
      + split; [discriminate |]. intros [_ [Hf | Hno]]; [discriminate |].
        destruct (proj1 Hex eq_refl) as [k [Hk Hocc]]. now destruct (Hno k Hk).
      + split; [intros _ | reflexivity]. split; [now left | right].
        intros k Hk Hocc. assert (false = true) by (apply Hex; eauto). discriminate.
    - split; [intros _ | reflexivity]. split; now left. }
  split; [exact Hiff | split].
  - intros k Hn Hk Hocc. apply not_true_iff_false'. intros Hacc.
    apply Hiff in Hacc. destruct Hacc as [_ [Hf | Hno]]; [congruence |].
    exact (Hno k Hk Hocc).
  - intros Hc Hn. apply Hiff. split; now left.
Qed.


(** *** The category filter *)

Lemma get_category_from_first (before after : list Dom.selector)
      (sel : Dom.selector) (d : soup) (n : node) :
  (forall sel', In sel' before -> Dom.select_one sel' d = None) ->
  Dom.select_one sel d = Some n ->
  get_category_from (before ++ sel :: after) d = Some (PyStr.strip (Dom.get_text n)).
Proof.
  intros Hnone Hsel. induction before as [|b before IH]; simpl.
  - now rewrite Hsel.
  - rewrite (Hnone b) by now left. apply IH. intros sel' Hin. apply Hnone. now right.
Qed.

Lemma get_category_from_none (sels : list Dom.selector) (d : soup) :
  (forall sel, In sel sels -> Dom.select_one sel d = None) ->
  get_category_from sels d = None.
Proof.
  intros Hnone. induction sels as [|b sels IH]; simpl; [reflexivity |].
  rewrite (Hnone b) by now left. apply IH. intros sel Hin. apply Hnone. now right.
Qed.

Lemma truthy_some (o : option string) :
  truthy o = true -> exists v, o = Some v /\ v <> EmptyString.
Proof.
  destruct o as [[|c v]|]; simpl; try discriminate. intros _. now exists (String c v).
Qed.

(** C9 (amended): with a category list configured, the label is read
    from the breadcrumbs, the active navigation item, the active sidebar
    item and the category marker of the header, in this order, and it is
    the stripped text of the first location that has an element, empty or
    not: the later locations are not consulted.  A page whose label is
    not empty is kept exactly when some configured category occurs in the
    label, case ignored.  A page with no element at any location is kept,
    and so is a page whose label is empty, whatever the later locations
    hold. *)
Theorem category_filter_first_match (d : soup) :
  category_selectors =
    [ [Dom.by_class "breadcrumbs"];
      [Dom.Compound None ["nav-item"; "active"]];
      [Dom.by_class "sidebar"; Dom.by_class "active"];
      [Dom.by_tag "header"; Dom.by_class "category"] ] /\
  (forall before sel after n,
      category_selectors = before ++ sel :: after ->
      (forall sel', In sel' before -> Dom.select_one sel' d = None) ->
      Dom.select_one sel d = Some n ->
      get_category d = Some (PyStr.strip (Dom.get_text n))) /\
  ((forall sel, In sel category_selectors -> Dom.select_one sel d = None) ->
   get_category d = None) /\
  (forall label,
      truthy (categories opts) = true ->
      get_category d = Some label -> label <> EmptyString ->
      (check_category d = true <->
       exists cat, In cat (keyword_list (default "" (categories opts))) /\
                   ci_occurs cat label)) /\
  (get_category d = None -> check_category d = true) /\
  (get_category d = Some EmptyString -> check_category d = true) /\
  (forall before sel after n,
      category_selectors = before ++ sel :: after ->
      (forall sel', In sel' before -> Dom.select_one sel' d = None) ->
      Dom.select_one sel d = Some n ->
      PyStr.strip (Dom.get_text n) = EmptyString ->
      check_category d = true) /\
  (check_category d = true <->
   truthy (categories opts) = false \/ get_category d = None \/
   get_category d = Some EmptyString \/
   exists label cat,
     get_category d = Some label /\
     In cat (keyword_list (default "" (categories opts))) /\ ci_occurs cat label).
Proof.
  assert (Hfirst : forall before sel after n,
             category_selectors = before ++ sel :: after ->
             (forall sel', In sel' before -> Dom.select_one sel' d = None) ->
             Dom.select_one sel d = Some n ->
             get_category d = Some (PyStr.strip (Dom.get_text n))).
  { intros before sel after n Heq Hnone Hsel. unfold get_category. rewrite Heq.
    now apply get_category_from_first. }
  assert (Hmatch : forall label,
             truthy (categories opts) = true ->
             get_category d = Some label -> label <> EmptyString ->
             (check_category d = true <->
              exists cat, In cat (keyword_list (default "" (categories opts))) /\
                          ci_occurs cat label)).
  { intros label Hcat Hlab Hne. unfold check_category. rewrite Hcat, Hlab.
    destruct label as [|c label]; [congruence |]. simpl truthy. cbv iota.
    fold (keyword_list (default "" (categories opts))).
    rewrite existsb_exists. simpl default. split.
    + intros [cat [Hin Hc]]. exists cat. split; [assumption | now apply contains_spec].
    + intros [cat [Hin Hc]]. exists cat. split; [assumption | now apply contains_spec]. }
  assert (Hnone : get_category d = None -> check_category d = true).
  { intros Hnone. unfold check_category. rewrite Hnone.
    now destruct (truthy (categories opts)). }
  assert (Hempty : get_category d = Some EmptyString -> check_category d = true).
  { intros Hempty. unfold check_category. rewrite Hempty.
    now destruct (truthy (categories opts)). }
  split; [reflexivity |]. split; [exact Hfirst |].
  split; [apply get_category_from_none |]. split; [exact Hmatch |].
  split; [exact Hnone |]. split; [exact Hempty |]. split.
  - intros before sel after n Heq Hbefore Hsel Htext. apply Hempty.
    rewrite <- Htext. now apply (Hfirst before sel after n).
  - destruct (truthy (categories opts)) eqn:Hcat.
    + destruct (get_category d) as [[|c label]|] eqn:Hlab.
      * split; [intros _; right; right; now left | intros _; now apply Hempty].
      * rewrite (Hmatch (String c label) eq_refl eq_refl) by discriminate. split.
        -- intros [cat [Hin Hc]]. right. right. right. now exists (String c label), cat.
        -- intros [H | [H | [H | [label' [cat [Heq [Hin Hc]]]]]]]; try discriminate.
           injection Heq as <-. now exists cat.
      * split; [intros _; right; now left | intros _; now apply Hnone].
    + split; [intros _; now left |]. intros _. unfold check_category. now rewrite Hcat.
Qed.


(** *** The URL scope filter *)

Lemma endswith_spec (p s : string) :
  PyStr.endswith p s = true <-> exists stem, s = stem +:+ p.
Proof.
  induction s as [|c s IH]; simpl.
  - rewrite orb_false_r. split.
    + intros H. apply String.eqb_eq in H. subst. now exists EmptyString.
    + intros [stem H]. destruct stem; simpl in H; [| discriminate].
      subst. apply String.eqb_refl.
  - rewrite orb_true_iff, IH. split.
    + intros [H | [stem H]].
      * apply String.eqb_eq in H. subst. now exists EmptyString.
      * exists (String c stem). simpl. now rewrite H.
    + intros [stem H]. destruct stem as [|x stem]; simpl in H.
      * left. subst. apply String.eqb_refl.
      * right. inversion H. now exists stem.
Qed.

Lemma has_char_append (c : ascii) (a b : string) :
  PyStr.has_char c (a +:+ b) = (PyStr.has_char c a || PyStr.has_char c b)%bool.
Proof.
  induction a as [|x a IH]; simpl; [reflexivity |].
  rewrite IH. now rewrite orb_assoc.
Qed.

(** [before_last] cuts at the last separator. *)
Lemma before_last_spec (sep : ascii) (dir seg : string) :
  PyStr.has_char sep seg = false ->
  PyStr.before_last sep (dir +:+ String sep seg) = dir.
Proof.
  intros Hseg. induction dir as [|c dir IH]; simpl.
  - rewrite Hseg. now rewrite Ascii.eqb_refl.
  - rewrite has_char_append. simpl. rewrite Ascii.eqb_refl, orb_true_r. simpl.
    now rewrite IH.
Qed.

(** The seed path with its final segment removed, and a slash. *)
Lemma base_path_spec (dir seg : string) :
  path (urlparse base_url) = dir +:+ "/" +:+ seg ->
  PyStr.has_char "/" seg = false ->
  base_path = dir +:+ "/".
Proof.
  intros Hp Hseg. unfold base_path. rewrite Hp.
  change ("/" +:+ seg) with (String "/" seg). now rewrite before_last_spec.
Qed.

(** C6: a URL that names a host other than the seed host, or whose path
    does not start with the seed's path prefix, or whose path ends in one
    of the non-document extensions, is rejected by the scope filter,
    whatever the parent and the state; nothing is recorded for it. *)
Theorem is_valid_url_out_of_scope (url : string) (from_url : option string) (s : state) :
  (netloc (urlparse url) <> EmptyString /\ netloc (urlparse url) <> domain) \/
  (~ exists rest, path (urlparse url) = base_path +:+ rest) \/
  (exists ext stem, In ext non_document_extensions /\
                    path (urlparse url) = stem +:+ ext) ->
  is_valid_url url from_url s = (false, s).
Proof.
  intros H. unfold is_valid_url.
  destruct H as [[H1 H2] | [H | [ext [stem [Hin Hp]]]]].
  - apply String.eqb_neq in H1, H2. now rewrite H1, H2.
  - destruct (_ && _)%bool; [reflexivity |].
    destruct (PyStr.startswith base_path (path (urlparse url))) eqn:Hs; [| reflexivity].
    destruct H. now apply startswith_spec.
  - destruct (_ && _)%bool; [reflexivity |].
    destruct (negb _); [reflexivity |].
    assert (Hx : PyStr.endswith_any non_document_extensions (path (urlparse url)) = true).
    { apply existsb_exists. exists ext. split; [assumption |].
      apply endswith_spec. eauto. }
    now rewrite Hx.
Qed.

(** X21: the depth policy on a candidate that passes the host, path and
    extension tests: rejected under a parent at the limit, otherwise
    accepted with the parent's depth plus one recorded under the
    candidate without its fragment. *)
Lemma is_valid_url_depth (url parent : string) (limit : Z) (s : state) :
  max_depth opts = Some limit ->
  parent <> EmptyString ->
  is_valid_url url None s = (true, s) ->
  let d := default 0 (url_depth s !! parent) in
  (limit <= d -> is_valid_url url (Some parent) s = (false, s)) /\
  (d < limit ->
   exists s', is_valid_url url (Some parent) s = (true, s') /\
              url_depth s' !! strip_fragment url = Some (d + 1)).
Proof.
  intros Hmax Hp Hscope d. unfold is_valid_url in *. rewrite Hmax in *.
  destruct ((negb (String.eqb (netloc (urlparse url)) "") &&
             negb (String.eqb (netloc (urlparse url)) domain))%bool); [discriminate |].
  destruct (negb (PyStr.startswith base_path (path (urlparse url)))); [discriminate |].
  destruct (PyStr.endswith_any non_document_extensions (path (urlparse url)));
    [discriminate |].
  destruct parent as [|c p]; [congruence |]. fold d.
  split; intros Hd.
  - destruct (Z.leb_spec limit d); [reflexivity | lia].
  - destruct (Z.leb_spec limit d); [lia |]. eexists. split; [reflexivity |].
    simpl. apply lookup_insert_eq.
Qed.


(** *** Removal of the chrome regions *)

Lemma flat_map_app' {A B : Type} (f : A -> list B) (l1 l2 : list A) :
  flat_map f (l1 ++ l2) = flat_map f l1 ++ flat_map f l2.
Proof. induction l1 as [|x l1 IH]; simpl; [reflexivity | now rewrite IH, app_assoc]. Qed.

Lemma flat_map_flat_map {A B C : Type} (f : A -> list B) (g : B -> list C) (l : list A) :
  flat_map g (flat_map f l) = flat_map (fun x => flat_map g (f x)) l.
Proof.
  induction l as [|x l IH]; simpl; [reflexivity |].
  now rewrite flat_map_app', IH.
Qed.

Lemma flat_map_ext_Forall {A B : Type} (f g : A -> list B) (l : list A) :
  Forall (fun x => f x = g x) l -> flat_map f l = flat_map g l.
Proof. induction 1 as [|x l Hx _ IH]; simpl; [reflexivity | now rewrite Hx, IH]. Qed.

Lemma without_in_nil (n : node) : without_in [] n = [n].
Proof.
  induction n as [s | t cl ats cs IH] using node_induction; simpl; [reflexivity |].
  f_equal. f_equal. induction IH as [|c cs Hc _ IHcs]; simpl; [reflexivity |].
  now rewrite Hc, IHcs.
Qed.

(** Removing the elements matched by one more selector from a document
    that already lacks those of [pre]. *)
Lemma decompose_without_in (pre : list Dom.compound) (c : Dom.compound) (n : node) :
  flat_map (Dom.decompose_in c) (without_in pre n) = without_in (pre ++ [c]) n.
Proof.
  induction n as [s | t cl ats cs IH] using node_induction; simpl; [reflexivity |].
  rewrite existsb_app. simpl. rewrite orb_false_r.
  destruct (existsb (fun c0 => Dom.matches c0 (t, cl)) pre); simpl; [reflexivity |].
  destruct (Dom.matches c (t, cl)); simpl; [reflexivity |].
  f_equal. f_equal.
  rewrite flat_map_flat_map. now apply flat_map_ext_Forall.
Qed.

Lemma decompose_without (pre : list Dom.compound) (c : Dom.compound) (d : soup) :
  Dom.decompose_all c (without pre d) = without (pre ++ [c]) d.
Proof.
  unfold Dom.decompose_all, without. rewrite flat_map_flat_map.
  apply flat_map_ext_Forall, Forall_forall. intros n _. apply decompose_without_in.
Qed.

Lemma without_nil (d : soup) : without [] d = d.
Proof.
  unfold without. induction d as [|n d IH]; simpl; [reflexivity |].
  now rewrite without_in_nil, IH.
Qed.

Lemma fold_decompose_without (cs pre : list Dom.compound) (d : soup) :
  fold_left (fun d c => Dom.decompose_all c d) cs (without pre d) = without (pre ++ cs) d.
Proof.
  revert pre. induction cs as [|c cs IH]; intros pre; simpl.
  - now rewrite app_nil_r.
  - rewrite decompose_without, IH. now rewrite <- app_assoc.
Qed.

(** The two loops of [strip_chrome] leave the document without any
    element matched by one of the selectors, and without what is
    below such an element. *)
Lemma strip_chrome_without (d : soup) : strip_chrome d = without chrome_selectors d.
Proof.
  unfold strip_chrome. rewrite <- (without_nil d) at 1. apply fold_decompose_without.
Qed.

Lemma without_in_unmatched (cs : list Dom.compound) (n : node) (anc : list Dom.head) :
  Forall (fun e => existsb (fun c => Dom.matches c (Dom.head_of (snd e))) cs = false)
         (flat_map (Dom.elements_of anc) (without_in cs n)).
Proof.
  revert anc. induction n as [s | t cl ats ch IH] using node_induction; intros anc; simpl.
  - constructor.
  - destruct (existsb (fun c => Dom.matches c (t, cl)) cs) eqn:Hm; simpl; [constructor |].
    rewrite ?app_nil_r. constructor; [exact Hm |].
    induction IH as [|c ch Hc _ IHch]; simpl; [constructor |].
    rewrite flat_map_app'. apply Forall_app. split; [apply Hc | apply IHch].
Qed.

Lemma without_unmatched (cs : list Dom.compound) (d : soup) (anc : list Dom.head) :
  Forall (fun e => existsb (fun c => Dom.matches c (Dom.head_of (snd e))) cs = false)
         (Dom.elements anc (without cs d)).
Proof.
  unfold Dom.elements, without. induction d as [|n d IH]; simpl; [constructor |].
  rewrite flat_map_app'. apply Forall_app. split; [apply without_in_unmatched | apply IH].
Qed.

(** No element of a chrome region is left to select. *)
Lemma select_without (cs : list Dom.compound) (c : Dom.compound) (d : soup) :
  In c cs -> Dom.select [c] (without cs d) = [].
Proof.
  intros Hin. unfold Dom.select.
  pose proof (without_unmatched cs d []) as Hall.
  induction Hall as [|e es He _ IH]; simpl; [reflexivity |].
  unfold Dom.selects at 1. simpl.
  assert (Hc : Dom.matches c (Dom.head_of (snd e)) = false).
  { destruct (Dom.matches c (Dom.head_of (snd e))) eqn:Hm; [| reflexivity].
    rewrite <- He. symmetry. apply existsb_exists. eauto. }
  rewrite Hc. simpl. exact IH.
Qed.


(** *** What the operations change in the state *)

Lemma set_url_depth_id (s : state) : set_url_depth (url_depth s) s = s.
Proof. now destruct s. Qed.

Lemma set_to_visit_id (s : state) : set_to_visit (to_visit s) s = s.
Proof. now destruct s. Qed.

(** The scope filter changes the depth map only. *)
Lemma is_valid_url_frame (url : string) (from_url : option string) (s : state) :
  snd (is_valid_url url from_url s)
  = set_url_depth (url_depth (snd (is_valid_url url from_url s))) s.
Proof.
  unfold is_valid_url.
  repeat match goal with
         | |- context [if ?b then _ else _] => destruct b
         | |- context [match ?o with Some _ => _ | None => _ end] => destruct o
         | |- context [match ?x with EmptyString => _ | String _ _ => _ end] => destruct x
         end; simpl; now rewrite ?set_url_depth_id.
Qed.

Lemma extract_links_from_frame (hrefs : list string) (current_url : string) (s : state) :
  snd (extract_links_from hrefs current_url s)
  = set_url_depth (url_depth (snd (extract_links_from hrefs current_url s))) s.
Proof.
  revert s. induction hrefs as [|href hrefs IH]; intros s; simpl.
  - now rewrite set_url_depth_id.
  - pose proof (is_valid_url_frame (urljoin current_url href) (Some current_url) s) as Hv.
    destruct (is_valid_url (urljoin current_url href) (Some current_url) s) as [ok s1].
    simpl in Hv. specialize (IH s1).
    destruct (extract_links_from hrefs current_url s1) as [links s2]. simpl in IH.
    assert (s2 = set_url_depth (url_depth s2) s) by (rewrite IH, Hv; reflexivity).
    now destruct (_ && _)%bool.
Qed.

(** The links returned are not visited. *)
Lemma extract_links_from_unvisited (hrefs : list string) (current_url : string)
      (s : state) (x : string) :
  x ∈ fst (extract_links_from hrefs current_url s) -> x ∉ visited_urls s.
Proof.
  revert s. induction hrefs as [|href hrefs IH]; intros s; simpl.
  - intros H. now apply elem_of_nil in H.
  - pose proof (is_valid_url_frame (urljoin current_url href) (Some current_url) s) as Hv.
    destruct (is_valid_url (urljoin current_url href) (Some current_url) s) as [ok s1].
    simpl in Hv. specialize (IH s1).
    destruct (extract_links_from hrefs current_url s1) as [links s2]. simpl in IH.
    assert (Hvis : visited_urls s1 = visited_urls s) by (rewrite Hv; reflexivity).
    rewrite Hvis in IH.
    destruct ok; simpl; [| exact IH].
    destruct (bool_decide_reflect (urljoin current_url href ∈ visited_urls s)) as [Hin|Hin];
      simpl; [exact IH |].
    intros Hx. apply elem_of_cons in Hx as [-> | Hx]; [exact Hin | now apply IH].
Qed.

(** The frontier after the links are appended: the old frontier, then
    links that are new, not seen and pairwise different. *)
Lemma discover_enqueue_spec (links : list string) (seen : gset string) (queue : list string) :
  exists new, discover_enqueue links seen queue = queue ++ new /\
              NoDup new /\
              forall x, x ∈ new -> (x ∉ seen) /\ (x ∉ queue) /\ (x ∈ links).
Proof.
  revert queue. induction links as [|link links IH]; intros queue; simpl.
  - exists []. rewrite app_nil_r. split; [reflexivity |]. split; [constructor |].
    intros x Hx. now apply elem_of_nil in Hx.
  - destruct (bool_decide_reflect (link ∈ seen)) as [Hs|Hs]; simpl.
    { destruct (IH queue) as [new [Heq [Hnd Hnew]]]. exists new.
      repeat split; try assumption; try (now apply Hnew).
      apply elem_of_cons. right. now apply Hnew. }
    destruct (bool_decide_reflect (link ∈ queue)) as [Hq|Hq]; simpl.
    { destruct (IH queue) as [new [Heq [Hnd Hnew]]]. exists new.
      repeat split; try assumption; try (now apply Hnew).
      apply elem_of_cons. right. now apply Hnew. }
    destruct (IH (queue ++ [link])) as [new [Heq [Hnd Hnew]]].
    exists (link :: new). rewrite Heq, <- app_assoc. split; [reflexivity |]. split.
    + apply NoDup_cons. split; [| assumption]. intros Hin.
      destruct (Hnew link Hin) as [_ [Hnq _]]. apply Hnq.
      apply elem_of_app. right. now apply list_elem_of_singleton.
    + intros x Hx. apply elem_of_cons in Hx as [-> | Hx].
      * repeat split; try assumption. now left.
      * destruct (Hnew x Hx) as [H1 [H2 H3]]. repeat split; try assumption.
        -- intros Hin. apply H2. apply elem_of_app. now left.
        -- now right.
Qed.

(** [enqueue] changes the frontier only, in the way of [discover_enqueue]. *)
Lemma enqueue_frame (links : list string) (s : state) :
  enqueue links s
  = set_to_visit (discover_enqueue links (visited_urls s) (to_visit s)) s.
Proof.
  revert s. induction links as [|link links IH]; intros s; simpl.
  - now rewrite set_to_visit_id.
  - rewrite IH. destruct (_ || _)%bool; reflexivity.
Qed.


Lemma queue_extends_same (s s' : state) :
  to_visit s' = to_visit s -> queue_extends s s'.
Proof.
  intros Heq. exists []. rewrite app_nil_r. split; [exact Heq |]. split; [constructor |].
  intros x Hx. now apply elem_of_nil in Hx.
Qed.

Lemma queue_extends_refl (s : state) : queue_extends s s.
Proof. now apply queue_extends_same. Qed.

Lemma length_dict_set {V : Type} (k : string) (v : V) (d : list (string * V)) :
  (length (dict_set k v d) <= S (length d))%nat.
Proof.
  induction d as [|[k' v'] d IH]; simpl; [lia |].
  destruct (String.eqb k k'); simpl; lia.
Qed.

(** What [build_elements] changes: the depth map and the frontier. *)
Lemma build_elements_effect (d : soup) (main : node) (url : string) (s : state) :
  let s' := snd (build_elements d main url s) in
  visited_urls s' = visited_urls s /\ attempted s' = attempted s /\
  pdf_elements s' = pdf_elements s /\ contents s' = contents s /\
  fetched s' = fetched s /\ queue_extends s s' /\
  (use_sitemap opts = true -> to_visit s' = to_visit s).
Proof.
  unfold build_elements.
  destruct (new_paragraph _ TitleStyle); [| simpl; repeat split; apply queue_extends_refl].
  destruct (new_paragraph _ URLStyle); [| simpl; repeat split; apply queue_extends_refl].
  assert (Hgoal :
    let s1 := if use_sitemap opts then s
              else let '(new_links, s') := extract_links d url s in enqueue new_links s' in
    visited_urls s1 = visited_urls s /\ attempted s1 = attempted s /\
    pdf_elements s1 = pdf_elements s /\ contents s1 = contents s /\
    fetched s1 = fetched s /\ queue_extends s s1 /\
    (use_sitemap opts = true -> to_visit s1 = to_visit s)).
  { destruct (use_sitemap opts); simpl; [repeat split; apply queue_extends_refl |].
    unfold extract_links.
    pose proof (extract_links_from_frame (Dom.anchors d) url s) as Hf.
    destruct (extract_links_from (Dom.anchors d) url s) as [links s1]. simpl in Hf.
    rewrite enqueue_frame, Hf. simpl. repeat split; try discriminate.
    destruct (discover_enqueue_spec links (visited_urls s) (to_visit s))
      as [new [Heq [Hnd Hnew]]].
    exists new. simpl. repeat split; try assumption; now apply Hnew. }
  simpl in Hgoal. destruct (extract_blocks _ _); exact Hgoal.
Qed.

(** What [process_page] changes: the fetch trace, at most one content
    entry (for the page itself), the depth map and the frontier. *)
Lemma process_page_effect (url : string) (s : state) :
  let s' := snd (process_page url s) in
  visited_urls s' = visited_urls s /\ attempted s' = attempted s /\
  pdf_elements s' = pdf_elements s /\
  (contents s' = contents s \/ exists rec, contents s' = dict_set url rec (contents s)) /\
  fetched s' = url :: fetched s /\ queue_extends s s' /\
  (use_sitemap opts = true -> to_visit s' = to_visit s).
Proof.
  unfold process_page.
  destruct (http_get_html url) as [page|];
    [| simpl; repeat split; try (now left); now apply queue_extends_same].
  destruct (negb (check_content_filters page));
    [simpl; repeat split; try (now left); now apply queue_extends_same |].
  destruct (negb (check_category page));
    [simpl; repeat split; try (now left); now apply queue_extends_same |].
  destruct (main_content (strip_chrome page)) as [main|];
    [| simpl; repeat split; try (now left); now apply queue_extends_same].
  match goal with
  | |- context [build_elements ?d ?m ?u ?s1] =>
      pose proof (build_elements_effect d m u s1) as He
  end.
  cbv zeta in He |- *. destruct He as [H1 [H2 [H3 [H4 [H5 [H6 H7]]]]]].
  rewrite H1, H2, H3, H4, H5.
  repeat split; try reflexivity; try assumption.
  right. eexists. reflexivity.
Qed.


(** *** Loops *)

Lemma while_mono {St : Type} (cond : St -> bool) (body : St -> St) (fuel fuel' : nat) (s r : St) :
  while cond body fuel s = Some r -> (fuel <= fuel')%nat ->
  while cond body fuel' s = Some r.
Proof.
  revert fuel' s. induction fuel as [|fuel IH]; intros fuel' s Hw Hle.
  - simpl in Hw. destruct fuel'; simpl; destruct (cond s); congruence.
  - simpl in Hw. destruct fuel' as [|fuel']; simpl; destruct (cond s); try congruence; try lia.
    apply IH; [assumption | lia].
Qed.

(** A loop whose turns decrease a pair of measures, ordered
    lexicographically, comes to an end. *)
Lemma while_terminates {St : Type} (cond : St -> bool) (body : St -> St) (m1 m2 : St -> nat) :
  (forall s, cond s = true ->
             (m1 (body s) < m1 s)%nat \/ (m1 (body s) = m1 s /\ (m2 (body s) < m2 s)%nat)) ->
  forall s, exists fuel s', while cond body fuel s = Some s'.
Proof.
  intros Hdec.
  assert (H : forall a b s, m1 s = a -> m2 s = b ->
                            exists fuel s', while cond body fuel s = Some s').
  { induction a as [a IHa] using lt_wf_ind.
    induction b as [b IHb] using lt_wf_ind. intros s Ha Hb.
    destruct (cond s) eqn:Hc.
    - destruct (Hdec s Hc) as [Hlt | [Heq Hlt]].
      + destruct (IHa (m1 (body s)) ltac:(lia) (m2 (body s)) (body s) eq_refl eq_refl)
          as [fuel [s' Hw]].
        exists (S fuel), s'. simpl. now rewrite Hc.
      + destruct (IHb (m2 (body s)) ltac:(lia) (body s) ltac:(lia) eq_refl)
          as [fuel [s' Hw]].
        exists (S fuel), s'. simpl. now rewrite Hc.
    - exists O, s. simpl. now rewrite Hc. }
  intros s. now apply (H (m1 s) (m2 s)).
Qed.

(** An invariant of the turns holds at the end, where the condition
    is false. *)
Lemma while_invariant {St : Type} (cond : St -> bool) (body : St -> St) (I : St -> Prop) :
  (forall s, I s -> cond s = true -> I (body s)) ->
  forall fuel s s', I s -> while cond body fuel s = Some s' -> I s' /\ cond s' = false.
Proof.
  intros Hstep. induction fuel as [|fuel IH]; intros s s' Hi Hw; simpl in Hw.
  - destruct (cond s) eqn:Hc; [discriminate |]. now inversion Hw; subst.
  - destruct (cond s) eqn:Hc.
    + apply (IH (body s)); [now apply Hstep | assumption].
    + now inversion Hw; subst.
Qed.


(** *** One turn of the main loop *)

Lemma crawl_body_skip (s : state) (u : string) (rest : list string) :
  to_visit s = u :: rest -> u ∈ visited_urls s ->
  crawl_body s = set_to_visit rest s.
Proof.
  intros Hq Hin. unfold crawl_body. rewrite Hq. simpl.
  now rewrite bool_decide_eq_true_2.
Qed.

Lemma crawl_body_visit (s : state) (u : string) (rest : list string) :
  to_visit s = u :: rest -> u ∉ visited_urls s ->
  crawl_body s
  = set_pdf_elements
      (pdf_elements (snd (process_page u (visit u (set_to_visit rest s)))) ++
       fst (process_page u (visit u (set_to_visit rest s))))
      (snd (process_page u (visit u (set_to_visit rest s)))).
Proof.
  intros Hq Hin. unfold crawl_body. rewrite Hq. simpl.
  rewrite bool_decide_eq_false_2 by assumption.
  now destruct (process_page u _).
Qed.

Lemma size_visit (u : string) (X : gset string) :
  u ∉ X -> size ({[u]} ∪ X) = S (size X).
Proof.
  intros Hu. rewrite size_union by set_solver. now rewrite size_singleton.
Qed.

(** A turn either skips a queued URL that is visited, or visits the
    head of the queue; the visited set grows by one URL in the second
    case and is unchanged in the first. *)
Lemma crawl_body_visited (s : state) (u : string) (rest : list string) :
  to_visit s = u :: rest ->
  ((u ∈ visited_urls s) /\ visited_urls (crawl_body s) = visited_urls s /\
   attempted (crawl_body s) = attempted s /\ contents (crawl_body s) = contents s /\
   to_visit (crawl_body s) = rest) \/
  ((u ∉ visited_urls s) /\ visited_urls (crawl_body s) = {[u]} ∪ visited_urls s /\
   attempted (crawl_body s) = u :: attempted s /\
   (length (contents (crawl_body s)) <= S (length (contents s)))%nat /\
   queue_extends (visit u (set_to_visit rest s)) (crawl_body s)).
Proof.
  intros Hq. destruct (decide (u ∈ visited_urls s)) as [Hin|Hin].
  - left. rewrite (crawl_body_skip s u rest) by assumption. now repeat split.
  - right. rewrite (crawl_body_visit s u rest) by assumption.
    pose proof (process_page_effect u (visit u (set_to_visit rest s))) as He.
    cbv zeta in He. destruct He as [H1 [H2 [H3 [H4 [H5 [H6 H7]]]]]].
    split; [assumption |]. simpl. rewrite H1, H2. repeat split.
    + destruct H4 as [-> | [rec ->]]; simpl; [lia | apply length_dict_set].
    + exact H6.
Qed.


(** *** Invariants of the main loop *)

Lemma crawl_cond_upto_queue (limit : Z) (s : state) :
  crawl_cond_upto limit s = true ->
  exists u rest, to_visit s = u :: rest /\ Z.of_nat (size (visited_urls s)) < limit.
Proof.
  unfold crawl_cond_upto. destruct (to_visit s) as [|u rest]; simpl; [discriminate |].
  intros H. apply Z.ltb_lt in H. eauto.
Qed.


Lemma crawl_inv_body (s : state) :
  crawl_inv s -> to_visit s <> [] -> crawl_inv (crawl_body s).
Proof.
  intros [Hnd [Hiff [Hsz Hct]]] Hq.
  destruct (to_visit s) as [|u rest] eqn:Hqe; [congruence |].
  destruct (crawl_body_visited s u rest Hqe)
    as [[Hin [Hv [Ha [Hc Ht]]]] | [Hin [Hv [Ha [Hc Ht]]]]].
  - unfold crawl_inv. now rewrite Hv, Ha, Hc.
  - unfold crawl_inv. rewrite Hv, Ha. repeat split.
    + apply NoDup_cons. split; [| assumption]. intros Hu. apply Hin. now apply Hiff.
    + intros Hx. apply elem_of_union in Hx as [Hx | Hx].
      * apply elem_of_singleton in Hx. subst. now left.
      * right. now apply Hiff.
    + intros Hx. apply elem_of_union. apply elem_of_cons in Hx as [Hx | Hx].
      * left. now apply elem_of_singleton.
      * right. now apply Hiff.
    + rewrite size_visit by assumption. simpl. now rewrite Hsz.
    + rewrite size_visit by assumption. lia.
Qed.

Lemma frontier_inv_body (s : state) :
  frontier_inv s -> to_visit s <> [] -> frontier_inv (crawl_body s).
Proof.
  intros [Hnd Hdis] Hq.
  destruct (to_visit s) as [|u rest] eqn:Hqe; [congruence |].
  apply NoDup_cons in Hnd as [Hu Hnd].
  destruct (crawl_body_visited s u rest Hqe)
    as [[Hin [Hv [Ha [Hc Ht]]]] | [Hin [Hv [Ha [Hc [new [Ht [Hnew Hfresh]]]]]]]].
  - unfold frontier_inv. rewrite Hv, Ht. split; [assumption |].
    intros x Hx. apply Hdis. now right.
  - unfold frontier_inv. rewrite Hv, Ht. simpl in *. split.
    + apply NoDup_app. repeat split; try assumption.
      intros x Hx Hx'. now destruct (Hfresh x Hx').
    + intros x Hx. apply elem_of_app in Hx as [Hx | Hx].
      * intros Hv'. apply elem_of_union in Hv' as [Hv' | Hv'].
        -- apply elem_of_singleton in Hv'. subst. contradiction.
        -- apply (Hdis x); [now right | assumption].
      * now destruct (Hfresh x Hx).
Qed.

Lemma crawl_cond_queue (s : state) : crawl_cond s = true -> to_visit s <> [].
Proof.
  intros Hc. apply crawl_cond_upto_queue in Hc as [u [rest [Hq _]]]. congruence.
Qed.

Lemma crawl_inv_reaches (s0 s : state) :
  crawl_inv s0 -> crawl_reaches s0 s -> crawl_inv s.
Proof.
  intros H0 Hr. induction Hr as [|s Hr IH Hc]; [assumption |].
  apply crawl_inv_body; [assumption | now apply crawl_cond_queue].
Qed.

Lemma frontier_inv_reaches (s0 s : state) :
  frontier_inv s0 -> crawl_reaches s0 s -> frontier_inv s.
Proof.
  intros H0 Hr. induction Hr as [|s Hr IH Hc]; [assumption |].
  apply frontier_inv_body; [assumption | now apply crawl_cond_queue].
Qed.

(** What a turn appends to the frontier is neither visited nor queued. *)
Lemma crawl_body_enqueues (s : state) :
  to_visit s <> [] ->
  exists new, to_visit (crawl_body s) = tl (to_visit s) ++ new /\
              forall x, x ∈ new ->
                        (x ∉ visited_urls (crawl_body s)) /\ (x ∉ tl (to_visit s)).
Proof.
  intros Hq. destruct (to_visit s) as [|u rest] eqn:Hqe; [congruence |].
  destruct (crawl_body_visited s u rest Hqe)
    as [[Hin [Hv [Ha [Hc Ht]]]] | [Hin [Hv [Ha [Hc [new [Ht [Hnew Hfresh]]]]]]]].
  - exists []. simpl. rewrite app_nil_r. split; [assumption |].
    intros x Hx. now apply elem_of_nil in Hx.
  - exists new. simpl in *. split; [assumption |]. intros x Hx. rewrite Hv.
    now apply Hfresh.
Qed.


(** *** The state at the entry of the main loop *)

Lemma discover_body_fresh (ds : discovery) :
  fresh (d_state ds) -> fresh (d_state (discover_body ds)).
Proof.
  intros Hf. unfold discover_body.
  destruct (d_to_visit ds) as [|u rest]; [assumption |].
  destruct (bool_decide _); [assumption |].
  destruct (http_get_html u) as [page|]; [| exact Hf].
  unfold extract_links.
  pose proof (extract_links_from_frame (Dom.anchors page) u (log_fetch u (d_state ds))) as Hfr.
  destruct (extract_links_from _ _ _) as [links s2]. simpl in *. rewrite Hfr. exact Hf.
Qed.

(** The main loop starts with an empty visited set and no record,
    and, unless a sitemap or the user gives the frontier, with the seed
    URL alone in it. *)
Lemma seed_fresh (fuel : nat) (s0 : state) :
  seed fuel = Some (inl s0) ->
  fresh s0 /\
  (use_sitemap opts = false -> interactive opts = false -> to_visit s0 = [base_url]).
Proof.
  unfold seed. intros Hs.
  assert (Hf1 : fresh (if use_sitemap opts
                       then set_to_visit (parse_sitemap (sitemap_url opts) init) init
                       else init)).
  { destruct (use_sitemap opts); repeat split. }
  destruct (interactive opts) eqn:Hi.
  - split; [| discriminate].
    destruct (interactive_mode fuel _) as [[sel s']|] eqn:Him; [| discriminate].
    simpl in Hs. destruct sel as [urls | code]; [| discriminate].
    inversion Hs; subst. clear Hs.
    assert (Hf' : fresh s').
    { unfold interactive_mode in Him. destruct (use_sitemap opts) eqn:Hu.
      - simpl in Him. destruct (prompt _); inversion Him; subst; exact Hf1.
      - destruct (while discover_cond discover_body fuel _) as [ds|] eqn:Hw;
          [| discriminate].
        apply (while_invariant discover_cond discover_body
                 (fun ds => fresh (d_state ds))) in Hw as [Hw _].
        + simpl in Him. destruct (prompt _); inversion Him; subst; exact Hw.
        + intros ds' Hds _. now apply discover_body_fresh.
        + exact Hf1. }
    exact Hf'.
  - inversion Hs; subst. split; [exact Hf1 |]. intros Hu _. now rewrite Hu.
Qed.

Lemma fresh_crawl_inv (s : state) : fresh s -> crawl_inv s.
Proof.
  intros [Hv [Ha [Hc Hp]]]. unfold crawl_inv. rewrite Hv, Ha, Hc. repeat split.
  - constructor.
  - intros H. now apply elem_of_empty in H.
  - intros H. now apply elem_of_nil in H.
  - simpl. lia.
Qed.

(** C5 (amended): in every crawl run, at every moment of the main
    loop, each URL has been added to the visited set at most once, and
    what a turn appends to the frontier is neither visited nor already
    queued; when the frontier the loop starts from has no repetition (as
    when it is the seed URL alone) the frontier never holds the same URL
    twice, and never a visited one. *)
Theorem crawl_frontier_invariants (fuel0 : nat) (s0 s : state) :
  seed fuel0 = Some (inl s0) ->
  crawl_reaches s0 s ->
  NoDup (attempted s) /\
  (forall u, u ∈ visited_urls s <-> u ∈ attempted s) /\
  (crawl_cond s = true ->
   exists new, to_visit (crawl_body s) = tl (to_visit s) ++ new /\
               forall x, x ∈ new ->
                         (x ∉ visited_urls (crawl_body s)) /\ (x ∉ tl (to_visit s))) /\
  (NoDup (to_visit s0) ->
   NoDup (to_visit s) /\ forall x, x ∈ to_visit s -> x ∉ visited_urls s) /\
  (use_sitemap opts = false -> interactive opts = false -> NoDup (to_visit s0)).
Proof.
  intros Hseed Hr. apply seed_fresh in Hseed as [Hfresh Hdefault].
  pose proof (crawl_inv_reaches s0 s (fresh_crawl_inv s0 Hfresh) Hr) as [Hnd [Hiff _]].
  split; [exact Hnd |]. split; [exact Hiff |]. split; [| split].
  - intros Hc. apply crawl_body_enqueues. now apply crawl_cond_queue.
  - intros Hnd0. apply (frontier_inv_reaches s0 s); [| assumption].
    split; [assumption |]. intros x _. destruct Hfresh as [Hv _]. rewrite Hv.
    apply not_elem_of_empty.
  - intros Hu Hi. rewrite (Hdefault Hu Hi). apply NoDup_singleton.
Qed.


(** *** The size of the visited set *)

Lemma crawl_body_size (s : state) :
  to_visit s <> [] ->
  size (visited_urls (crawl_body s)) = size (visited_urls s) \/
  size (visited_urls (crawl_body s)) = S (size (visited_urls s)).
Proof.
  intros Hq. destruct (to_visit s) as [|u rest] eqn:Hqe; [congruence |].
  destruct (crawl_body_visited s u rest Hqe)
    as [[Hin [Hv _]] | [Hin [Hv _]]]; rewrite Hv.
  - now left.
  - right. now apply size_visit.
Qed.

(** The main loop comes to an end, whatever the limit. *)
Lemma crawl_upto_terminates (limit : Z) (s : state) :
  exists fuel s', while (crawl_cond_upto limit) crawl_body fuel s = Some s'.
Proof.
  apply (while_terminates (crawl_cond_upto limit) crawl_body
           (fun s => Z.to_nat (limit - Z.of_nat (size (visited_urls s))))
           (fun s => length (to_visit s))).
  intros s1 Hc. apply crawl_cond_upto_queue in Hc as [u [rest [Hq Hlt]]].
  destruct (crawl_body_visited s1 u rest Hq)
    as [[Hin [Hv [_ [_ Ht]]]] | [Hin [Hv _]]]; rewrite Hv.
  - right. split; [reflexivity |]. rewrite Ht, Hq. simpl. lia.
  - left. rewrite size_visit by assumption. lia.
Qed.




(** *** Link extraction and the chrome regions *)

Lemma extract_links_from_anchors (hrefs : list string) (current_url : string)
      (s : state) (x : string) :
  x ∈ fst (extract_links_from hrefs current_url s) ->
  exists href, href ∈ hrefs /\ x = urljoin current_url href.
Proof.
  revert s. induction hrefs as [|href hrefs IH]; intros s; simpl.
  - intros H. now apply elem_of_nil in H.
  - destruct (is_valid_url (urljoin current_url href) (Some current_url) s) as [ok s1].
    specialize (IH s1).
    destruct (extract_links_from hrefs current_url s1) as [links s2]. simpl in IH.
    assert (Hrest : x ∈ links ->
                    exists href0, href0 ∈ href :: hrefs /\ x = urljoin current_url href0).
    { intros Hx. destruct (IH Hx) as [h [Hh Heq]]. exists h. split; [now right | assumption]. }
    destruct (_ && _)%bool; simpl; [| exact Hrest].
    intros Hx. apply elem_of_cons in Hx as [-> | Hx]; [| now apply Hrest].
    exists href. split; [now left | reflexivity].
Qed.

Lemma process_page_accepted (url : string) (page : soup) (main : node) (s : state) :
  http_get_html url = Some page ->
  check_content_filters page = true ->
  check_category page = true ->
  main_content (strip_chrome page) = Some main ->
  process_page url s
  = build_elements (strip_chrome page) main url (stored url (strip_chrome page) main s).
Proof.
  intros Hpage Hf Hc Hm. unfold process_page. rewrite Hpage, Hf, Hc. simpl.
  now rewrite Hm.
Qed.

(** Where the links of a page come from: when a page reaches link
    extraction, the links are extracted from the document from which the
    chrome regions have been removed: that document has no element
    matched by a chrome selector and nothing that was below one, and
    every URL appended to the frontier resolves an anchor of it. *)
Theorem links_extracted_after_stripping (url : string) (page : soup) (main : node)
        (s : state) :
  http_get_html url = Some page ->
  check_content_filters page = true ->
  check_category page = true ->
  main_content (strip_chrome page) = Some main ->
  paragraph_ok ("<b>" +:+ show_title (page_title (strip_chrome page) url) +:+ "</b>") = true ->
  paragraph_ok ("Source: " +:+ url) = true ->
  use_sitemap opts = false ->
  let d := strip_chrome page in
  let s1 := stored url d main s in
  d = without chrome_selectors page /\
  (forall c, In c chrome_selectors -> Dom.select [c] d = []) /\
  snd (process_page url s)
  = enqueue (fst (extract_links d url s1)) (snd (extract_links d url s1)) /\
  (forall x, x ∈ to_visit (snd (process_page url s)) ->
             x ∈ to_visit s \/
             exists href, href ∈ Dom.anchors d /\ x = urljoin url href).
Proof.
  intros Hpage Hf Hc Hm Hp1 Hp2 Hsm d s1.
  assert (Hd : d = without chrome_selectors page) by apply strip_chrome_without.
  assert (Hpp : snd (process_page url s)
                = enqueue (fst (extract_links d url s1)) (snd (extract_links d url s1))).
  { rewrite (process_page_accepted url page main s Hpage Hf Hc Hm).
    unfold build_elements, new_paragraph. rewrite Hp1, Hp2, Hsm.
    fold d. fold s1. destruct (extract_links d url s1) as [links s2].
    now destruct (extract_blocks _ _). }
  split; [exact Hd |]. split; [| split; [exact Hpp |]].
  - intros c Hin. rewrite Hd. now apply select_without.
  - intros x Hx. rewrite Hpp, enqueue_frame in Hx. simpl in Hx.
    destruct (discover_enqueue_spec (fst (extract_links d url s1))
                (visited_urls (snd (extract_links d url s1)))
                (to_visit (snd (extract_links d url s1)))) as [new [Heq [_ Hnew]]].
    rewrite Heq in Hx. apply elem_of_app in Hx as [Hx | Hx].
    + left. unfold extract_links in Hx. rewrite extract_links_from_frame in Hx.
      exact Hx.
    + right. destruct (Hnew x Hx) as [_ [_ Hl]].
      now apply extract_links_from_anchors in Hl.
Qed.


(** *** Dictionaries and assembled texts *)

Lemma dict_get_set_same {V : Type} (k : string) (v : V) (d : list (string * V)) :
  dict_get k (dict_set k v d) = Some v.
Proof.
  induction d as [|[k' v'] d IH]; simpl.
  - now rewrite String.eqb_refl.
  - destruct (String.eqb k k') eqn:E; simpl; rewrite ?String.eqb_refl, ?E; auto.
Qed.



Lemma occurs_in_refl (a : string) : occurs_in a a.
Proof. exists EmptyString, EmptyString. simpl. now rewrite append_empty_r. Qed.

Lemma occurs_in_app_l (a b c : string) : occurs_in a b -> occurs_in a (b +:+ c).
Proof.
  intros [pre [suf ->]]. exists pre, (suf +:+ c). now rewrite !append_assoc.
Qed.

Lemma occurs_in_app_r (a b c : string) : occurs_in a c -> occurs_in a (b +:+ c).
Proof.
  intros [pre [suf ->]]. exists (b +:+ pre), suf. now rewrite !append_assoc.
Qed.

Lemma concat_cons (x : string) (xs : list string) :
  String.concat EmptyString (x :: xs) = x +:+ String.concat EmptyString xs.
Proof. destruct xs; simpl; [now rewrite append_empty_r | reflexivity]. Qed.

Lemma occurs_in_concat (y : string) (ys : list string) :
  In y ys -> occurs_in y (String.concat EmptyString ys).
Proof.
  induction ys as [|x ys IH]; [intros [] |]. rewrite concat_cons. intros [-> | Hin].
  - apply occurs_in_app_l, occurs_in_refl.
  - now apply occurs_in_app_r, IH.
Qed.

(** A piece written by a loop over the entries occurs in what the loop
    writes. *)
Lemma write_each_occurs {A : Type} (f : A -> option string) (l : list A)
      (x : A) (out : string) :
  write_each f l = Some out -> In x l ->
  exists piece, f x = Some piece /\ occurs_in piece out.
Proof.
  unfold write_each. intros Hw Hin.
  destruct (mapM f l) as [pieces|] eqn:Hm; [| discriminate].
  simpl in Hw. inversion Hw; subst. clear Hw.
  apply mapM_Some in Hm.
  induction Hm as [|a piece l pieces Ha _ IH]; [destruct Hin |].
  destruct Hin as [-> | Hin].
  - exists piece. split; [assumption |]. apply occurs_in_concat. now left.
  - destruct (IH Hin) as [p [Hp Hocc]]. exists p. split; [assumption |].
    rewrite concat_cons. now apply occurs_in_app_r.
Qed.

Lemma write_each_none {A : Type} (f : A -> option string) (l : list A) :
  write_each f l = None <-> exists x, In x l /\ f x = None.
Proof.
  unfold write_each. split.
  - intros H. destruct (mapM f l) eqn:Hm; [discriminate |].
    apply mapM_None, Exists_exists in Hm as [x [Hin Hx]].
    exists x. split; [now apply list_elem_of_In | assumption].
  - intros [x [Hin Hx]].
    assert (Hm : mapM f l = None).
    { apply mapM_None, Exists_exists. exists x. split; [now apply list_elem_of_In | assumption]. }
    now rewrite Hm.
Qed.

(** *** Splitting *)

Lemma split_go_nonempty (sep : string) (k : nat) (cur : list ascii) (s : string) :
  (1 <= length (PyStr.split_go sep k cur s))%nat.
Proof.
  revert k cur. induction s as [|c s IH]; intros k cur; simpl; [lia |].
  destruct k; [| apply IH]. destruct (PyStr.startswith sep (String c s)); simpl; [lia | apply IH].
Qed.

Lemma split_go_one (sep : string) (cur : list ascii) (s : string) :
  PyStr.contains sep s = false -> length (PyStr.split_go sep 0 cur s) = 1%nat.
Proof.
  revert cur. induction s as [|c s IH]; intros cur; [reflexivity |].
  cbn [PyStr.contains PyStr.split_go]. intros H. apply orb_false_iff in H as [H1 H2].
  rewrite H1. now apply IH.
Qed.

Lemma split_go_two (sep : string) (cur : list ascii) (s : string) :
  sep <> EmptyString -> PyStr.contains sep s = true ->
  (2 <= length (PyStr.split_go sep 0 cur s))%nat.
Proof.
  intros Hsep. revert cur. induction s as [|c s IH]; intros cur.
  - destruct sep; [congruence | discriminate].
  - cbn [PyStr.contains PyStr.split_go]. intros H.
    destruct (PyStr.startswith sep (String c s)); simpl in *.
    + pose proof (split_go_nonempty sep (String.length sep - 1) [] s). lia.
    + now apply IH.
Qed.

(** The identifier of a section exists exactly for a URL with a double
    slash. *)
Lemma html_id_none (url : string) : html_id url = None <-> ~ occurs_in "//" url.
Proof.
  unfold html_id, PyStr.split. rewrite <- contains_spec.
  destruct (PyStr.contains "//" url) eqn:Hc.
  - pose proof (split_go_two "//" [] url ltac:(discriminate) Hc) as Hlen.
    destruct (PyStr.split_go "//" 0 [] url) as [|a [|b l]]; simpl in Hlen; try lia.
    simpl. split; [discriminate | congruence].
  - pose proof (split_go_one "//" [] url Hc) as Hlen.
    destruct (PyStr.split_go "//" 0 [] url) as [|a [|b l]]; simpl in Hlen; try lia.
    simpl. split; [congruence | reflexivity].
Qed.

(** *** Failure after the content entry is stored *)





(** *** Every content entry is rendered *)


Lemma html_section_none (e : string * page_content) :
  html_section e = None <-> ~ occurs_in "//" (fst e).
Proof.
  rewrite <- html_id_none. unfold html_section.
  destruct (html_id (fst e)); simpl; split; congruence.
Qed.

Lemma html_toc_entry_none (e : string * page_content) :
  html_toc_entry e = None <-> ~ occurs_in "//" (fst e).
Proof.
  rewrite <- html_id_none. unfold html_toc_entry.
  destruct (html_id (fst e)); simpl; split; congruence.
Qed.

Lemma markdown_section_none (e : string * page_content) :
  markdown_section e = None <-> pc_title (snd e) = None.
Proof.
  unfold markdown_section, markdown_heading.
  destruct (pc_title (snd e)); simpl; split; congruence.
Qed.

Lemma markdown_toc_entry_none (e : string * page_content) :
  markdown_toc_entry e = None <-> pc_title (snd e) = None.
Proof.
  unfold markdown_toc_entry. destruct (pc_title (snd e)); simpl; split; congruence.
Qed.

(** A loop over the entries writes its pieces when none of them
    raises. *)
Lemma write_each_some {A : Type} (f : A -> option string) (l : list A) :
  (forall x, In x l -> f x <> None) -> exists out, write_each f l = Some out.
Proof.
  intros Hall. destruct (write_each f l) as [out|] eqn:Hw; [now exists out |].
  apply write_each_none in Hw as [x [Hin Hx]]. now destruct (Hall x Hin).
Qed.

(** The HTML renderer fails exactly when a stored URL has no double
    slash. *)
Lemma create_html_none (s : state) :
  create_html s = None <->
  exists e, In e (contents s) /\ ~ occurs_in "//" (fst e).
Proof.
  unfold create_html. split.
  - intros H.
    destruct (write_each html_section (contents s)) as [sections|] eqn:Hs.
    + destruct (create_toc opts && _)%bool; [| discriminate].
      destruct (write_each html_toc_entry (contents s)) as [body|] eqn:Hb; [discriminate |].
      apply write_each_none in Hb as [e [Hin He]]. exists e. split; [assumption |].
      now apply html_toc_entry_none.
    + apply write_each_none in Hs as [e [Hin He]]. exists e. split; [assumption |].
      now apply html_section_none.
  - intros [e [Hin He]].
    assert (Hs : write_each html_section (contents s) = None)
      by (apply write_each_none; exists e; split; [assumption | now apply html_section_none]).
    rewrite Hs. now destruct (if (create_toc opts && _)%bool then _ else _).
Qed.

(** The Markdown renderer fails exactly when a stored title is not a
    string. *)
Lemma create_markdown_none (s : state) :
  create_markdown s = None <->
  exists e, In e (contents s) /\ pc_title (snd e) = None.
Proof.
  unfold create_markdown. split.
  - intros H.
    destruct (write_each markdown_section (contents s)) as [sections|] eqn:Hs.
    + destruct (create_toc opts && _)%bool; [| discriminate].
      destruct (write_each markdown_toc_entry (contents s)) as [body|] eqn:Hb;
        [discriminate |].
      apply write_each_none in Hb as [e [Hin He]]. exists e. split; [assumption |].
      now apply markdown_toc_entry_none.
    + apply write_each_none in Hs as [e [Hin He]]. exists e. split; [assumption |].
      now apply markdown_section_none.
  - intros [e [Hin He]].
    assert (Hs : write_each markdown_section (contents s) = None)
      by (apply write_each_none; exists e; split; [assumption | now apply markdown_section_none]).
    rewrite Hs. now destruct (if (create_toc opts && _)%bool then _ else _).
Qed.


Lemma create_markdown_text (s : state) (a : artifact) :
  create_markdown s = Some a -> exists out, a = TextFile out.
Proof.
  unfold create_markdown.
  destruct (if (create_toc opts && _)%bool then _ else _) as [toc|]; [| discriminate].
  unfold mbind, option_bind.
  destruct (write_each markdown_section (contents s)) as [sections|]; [| discriminate].
  intros H. eexists. symmetry. injection H as H. exact H.
Qed.


Lemma create_markdown_some (s : state) :
  (forall e, In e (contents s) -> pc_title (snd e) <> None) ->
  exists out, create_markdown s = Some (TextFile out).
Proof.
  intros Hall. destruct (create_markdown s) as [a|] eqn:Hc.
  - destruct (create_markdown_text s a Hc) as [out ->]. now exists out.
  - apply create_markdown_none in Hc as [e [Hin He]]. now destruct (Hall e Hin).
Qed.







(** *** The Markdown anchor *)

Lemma occurs_in_trans (a b c : string) : occurs_in a b -> occurs_in b c -> occurs_in a c.
Proof.
  intros [p1 [s1 ->]] [p2 [s2 ->]]. exists (p2 +:+ p1), (s1 +:+ s2).
  now rewrite !append_assoc.
Qed.

(** The heading of a section is in the file that the Markdown renderer
    writes, and with a table of contents the line of the section too. *)
Lemma create_markdown_lines (s : state) (e : string * page_content)
      (title out : string) :
  pc_title (snd e) = Some title ->
  In e (contents s) ->
  create_markdown s = Some (TextFile out) ->
  (create_toc opts = true ->
   occurs_in ("- [" +:+ title +:+ "](#" +:+ markdown_anchor title +:+ ")" +:+ nl) out) /\
  occurs_in ("## " +:+ title +:+ " <a id=" +:+ dq +:+ markdown_anchor title +:+ dq +:+
             "></a>" +:+ nl +:+ nl) out.
Proof.
  intros Ht Hin. unfold create_markdown.
  destruct (contents s) as [|e0 es] eqn:Hc; [destruct Hin |].
  rewrite <- Hc in *. clear Hc. rewrite andb_true_r. unfold mbind, option_bind.
  destruct (create_toc opts) eqn:Htoc.
  - destruct (write_each markdown_toc_entry (contents s)) as [body|] eqn:Hb;
      [| discriminate].
    destruct (write_each markdown_section (contents s)) as [sections|] eqn:Hs;
      [| discriminate].
    intros H.
    replace out with ("# Documentation: " +:+ base_url +:+ nl +:+ nl +:+
                      ("## Table of Contents" +:+ nl +:+ nl +:+ body +:+
                       nl +:+ "---" +:+ nl +:+ nl) +:+ sections) by congruence.
    clear H. split.
    + intros _.
      destruct (write_each_occurs markdown_toc_entry (contents s) e body Hb Hin)
        as [piece [Hp Hocc]].
      unfold markdown_toc_entry in Hp. rewrite Ht in Hp.
      unfold mbind, option_bind in Hp.
      replace piece with
        ("- [" +:+ title +:+ "](#" +:+ markdown_anchor title +:+ ")" +:+ nl) in Hocc
        by congruence.
      do 4 apply occurs_in_app_r. apply occurs_in_app_l.
      do 3 apply occurs_in_app_r. apply occurs_in_app_l. exact Hocc.
    + destruct (write_each_occurs markdown_section (contents s) e sections Hs Hin)
        as [piece [Hp Hocc]].
      unfold markdown_section, markdown_heading in Hp. rewrite Ht in Hp.
      unfold mbind, option_bind in Hp.
      do 5 apply occurs_in_app_r.
      apply (occurs_in_trans _ piece); [| exact Hocc].
      replace piece with
        (("## " +:+ title +:+ " <a id=" +:+ dq +:+ markdown_anchor title +:+ dq +:+
          "></a>" +:+ nl +:+ nl) +:+
         "Source: [" +:+ fst e +:+ "](" +:+ fst e +:+ ")" +:+ nl +:+ nl +:+
         String.concat EmptyString
           (List.map (fun p => p +:+ nl +:+ nl) (markdown_paragraphs (pc_text (snd e)))) +:+
         "---" +:+ nl +:+ nl) by congruence.
      apply occurs_in_app_l, occurs_in_refl.
  - destruct (write_each markdown_section (contents s)) as [sections|] eqn:Hs;
      [| discriminate].
    intros H.
    replace out with ("# Documentation: " +:+ base_url +:+ nl +:+ nl +:+
                      EmptyString +:+ sections) by congruence.
    clear H. split; [discriminate |].
    destruct (write_each_occurs markdown_section (contents s) e sections Hs Hin)
      as [piece [Hp Hocc]].
    unfold markdown_section, markdown_heading in Hp. rewrite Ht in Hp.
    unfold mbind, option_bind in Hp.
    do 5 apply occurs_in_app_r.
    apply (occurs_in_trans _ piece); [| exact Hocc].
    replace piece with
      (("## " +:+ title +:+ " <a id=" +:+ dq +:+ markdown_anchor title +:+ dq +:+
        "></a>" +:+ nl +:+ nl) +:+
       "Source: [" +:+ fst e +:+ "](" +:+ fst e +:+ ")" +:+ nl +:+ nl +:+
       String.concat EmptyString
         (List.map (fun p => p +:+ nl +:+ nl) (markdown_paragraphs (pc_text (snd e)))) +:+
       "---" +:+ nl +:+ nl) by congruence.
    apply occurs_in_app_l, occurs_in_refl.
Qed.

(** C8: for a record whose title is "Getting Started: V2." the Markdown
    renderer derives the anchor "getting-started-v2" (lower case, spaces
    to hyphens, colons and periods removed), and the entry of the table
    of contents and the heading of the section carry this same anchor.
    The renderer writes both: when every stored title is a string, which
    is when it completes, it returns a file that holds the heading, and
    with a table of contents the entry as well. *)
Theorem markdown_anchor_getting_started (e : string * page_content) :
  pc_title (snd e) = Some "Getting Started: V2." ->
  markdown_anchor "Getting Started: V2." = "getting-started-v2" /\
  markdown_toc_entry e
  = Some ("- [Getting Started: V2.](#" +:+ "getting-started-v2" +:+ ")" +:+ nl) /\
  markdown_heading e
  = Some ("## Getting Started: V2. <a id=" +:+ dq +:+ "getting-started-v2" +:+ dq +:+
          "></a>" +:+ nl +:+ nl) /\
  (forall s out,
      In e (contents s) -> create_toc opts = true ->
      create_markdown s = Some (TextFile out) ->
      occurs_in ("- [Getting Started: V2.](#" +:+ "getting-started-v2" +:+ ")" +:+ nl) out /\
      occurs_in ("## Getting Started: V2. <a id=" +:+ dq +:+ "getting-started-v2" +:+ dq +:+
                 "></a>" +:+ nl +:+ nl) out) /\
  (forall s,
      In e (contents s) ->
      (forall e', In e' (contents s) -> pc_title (snd e') <> None) ->
      exists out,
        create_markdown s = Some (TextFile out) /\
        (create_toc opts = true ->
         occurs_in ("- [Getting Started: V2.](#" +:+ "getting-started-v2" +:+ ")" +:+ nl) out) /\
        occurs_in ("## Getting Started: V2. <a id=" +:+ dq +:+ "getting-started-v2" +:+ dq +:+
                   "></a>" +:+ nl +:+ nl) out).
Proof.
  intros Ht.
  split; [reflexivity |].
  split; [unfold markdown_toc_entry; now rewrite Ht |].
  split; [unfold markdown_heading; now rewrite Ht |]. split.
  - intros s out Hin Htoc Hout.
    destruct (create_markdown_lines s e "Getting Started: V2." out Ht Hin Hout)
      as [Hline Hhead].
    split; [exact (Hline Htoc) | exact Hhead].
  - intros s Hin Hall. destruct (create_markdown_some s Hall) as [out Hout].
    exists out. split; [exact Hout |].
    exact (create_markdown_lines s e "Getting Started: V2." out Ht Hin Hout).
Qed.


(** *** The end of a run *)

Lemma render_unsupported (s : state) :
  supported_format (format opts) = false -> render s = None.
Proof.
  unfold supported_format, render. simpl. intros H.
  repeat (apply orb_false_iff in H as [? H]).
  repeat match goal with
         | E : String.eqb (PyStr.lower (format opts)) ?f = false |- _ =>
             rewrite E; clear E
         end.
  reflexivity.
Qed.

Lemma discover_terminates (ds : discovery) :
  exists fuel ds', while discover_cond discover_body fuel ds = Some ds'.
Proof.
  apply (while_terminates discover_cond discover_body
           (fun ds => Z.to_nat (max_pages opts - Z.of_nat (size (temp_visited ds))))
           (fun ds => length (d_to_visit ds))).
  intros d Hc. unfold discover_cond in Hc. unfold discover_body.
  destruct (d_to_visit d) as [|u rest]; simpl in Hc; [discriminate |].
  apply Z.ltb_lt in Hc.
  destruct (bool_decide_reflect (u ∈ temp_visited d)) as [Hin|Hin].
  - right. simpl. split; [reflexivity | lia].
  - left. destruct (http_get_html u) as [page|].
    + destruct (extract_links page u _) as [links s2]. simpl.
      rewrite size_visit by assumption. lia.
    + simpl. rewrite size_visit by assumption. lia.
Qed.

Lemma interactive_mode_mono (fuel fuel' : nat) (s : state) r :
  interactive_mode fuel s = Some r -> (fuel <= fuel')%nat ->
  interactive_mode fuel' s = Some r.
Proof.
  unfold interactive_mode. intros H Hle.
  destruct (use_sitemap opts); [exact H |].
  destruct (while discover_cond discover_body fuel _) as [ds|] eqn:Hw; [| discriminate].
  now rewrite (while_mono _ _ fuel fuel' _ ds Hw Hle).
Qed.

Lemma seed_mono (fuel fuel' : nat) r :
  seed fuel = Some r -> (fuel <= fuel')%nat -> seed fuel' = Some r.
Proof.
  unfold seed. intros H Hle. destruct (interactive opts); [| exact H].
  destruct (interactive_mode fuel _) as [r0|] eqn:Hi; [| discriminate].
  now rewrite (interactive_mode_mono fuel fuel' _ r0 Hi Hle).
Qed.

Lemma seed_terminates : exists fuel r, seed fuel = Some r.
Proof.
  unfold seed. destruct (interactive opts); [| exists O; eauto].
  unfold interactive_mode. destruct (use_sitemap opts).
  - exists O. simpl. eauto.
  - match goal with
    | |- context [while discover_cond discover_body _ ?d] =>
        destruct (discover_terminates d) as [fuel [ds Hw]]
    end.
    exists fuel. rewrite Hw. simpl. eauto.
Qed.

(** A run comes to an end. *)
Lemma run_terminates : exists fuel r, run fuel = Some r.
Proof.
  destruct seed_terminates as [fuel1 [r1 Hs]].
  destruct r1 as [s0 | [code s]].
  - destruct (crawl_upto_terminates (max_pages opts) s0) as [fuel2 [s Hc]].
    exists (Nat.max fuel1 fuel2). unfold run.
    rewrite (seed_mono fuel1 _ _ Hs) by lia. simpl.
    unfold crawl. rewrite (while_mono _ _ fuel2 _ _ s Hc) by lia. simpl. eauto.
  - exists fuel1. unfold run. rewrite Hs. simpl. eauto.
Qed.

(** With a format that is not supported, a run that does not leave
    through the prompt seeds the frontier, goes through the whole main
    loop and only then fails, with nothing written. *)
Lemma run_unsupported (fuel : nat) (r : outcome) :
  supported_format (format opts) = false ->
  run fuel = Some r ->
  match r with
  | Returned ok written s =>
      ok = false /\ written = None /\
      exists s0, seed fuel = Some (inl s0) /\ crawl fuel s0 = Some s
  | Exited code s => seed fuel = Some (inr (code, s))
  end.
Proof.
  intros Hf. unfold run.
  destruct (seed fuel) as [[s0 | [code s]]|]; simpl; [| | discriminate].
  - destruct (crawl fuel s0) as [s|] eqn:Hc; simpl; [| discriminate].
    rewrite (render_unsupported s Hf). intros H. inversion H; subst.
    split; [reflexivity |]. split; [reflexivity |]. exists s0. now split.
  - intros H. now inversion H.
Qed.


(** ** Further properties of the converter *)

(** *** The scope filter, in full *)

Lemma endswith_any_false (ps : list string) (s : string) :
  PyStr.endswith_any ps s = false <->
  forall p, In p ps -> ~ exists stem, s = stem +:+ p.
Proof.
  unfold PyStr.endswith_any. split.
  - intros H p Hin Hex. apply endswith_spec in Hex.
    assert (existsb (fun p => PyStr.endswith p s) ps = true)
      by (apply existsb_exists; eauto).
    congruence.
  - intros H. destruct (existsb _ ps) eqn:E; [| reflexivity].
    apply existsb_exists in E as [p [Hin Hp]]. apply endswith_spec in Hp.
    now destruct (H p Hin).
Qed.

(** X1: the scope filter accepts a URL exactly when it names no host or
    the seed host, its path starts with the seed's path prefix, its path
    ends in none of the non-document extensions and, where a maximum
    depth is configured and a non-empty parent is given, the depth
    recorded for the parent (0 when none is) is below the maximum. *)
Theorem is_valid_url_accepts_iff (url : string) (from_url : option string) (s : state) :
  fst (is_valid_url url from_url s) = true <->
  (netloc (urlparse url) = EmptyString \/ netloc (urlparse url) = domain) /\
  (exists rest, path (urlparse url) = base_path +:+ rest) /\
  (forall ext, In ext non_document_extensions ->
               ~ exists stem, path (urlparse url) = stem +:+ ext) /\
  (forall limit parent,
      max_depth opts = Some limit -> from_url = Some parent -> parent <> EmptyString ->
      default 0 (url_depth s !! parent) < limit).
Proof.
  assert (Hhost : (negb (String.eqb (netloc (urlparse url)) "") &&
                   negb (String.eqb (netloc (urlparse url)) domain))%bool = false <->
                  (netloc (urlparse url) = EmptyString \/ netloc (urlparse url) = domain)).
  { destruct (String.eqb_spec (netloc (urlparse url)) EmptyString);
      destruct (String.eqb_spec (netloc (urlparse url)) domain); simpl;
      split; auto; try discriminate. intros [H | H]; contradiction. }
  pose proof (startswith_spec base_path (path (urlparse url))) as Hpre.
  pose proof (endswith_any_false non_document_extensions (path (urlparse url))) as Hext.
  unfold is_valid_url.
  destruct (_ && _)%bool.
  { split; [discriminate |]. intros [H _]. apply Hhost in H. discriminate. }
  destruct (PyStr.startswith base_path (path (urlparse url))); cbn [negb].
  2: { split; [discriminate |]. intros [_ [H _]]. apply Hpre in H. discriminate. }
  destruct (PyStr.endswith_any non_document_extensions (path (urlparse url))).
  { split; [discriminate |]. intros [_ [_ [H _]]]. apply Hext in H. discriminate. }
  assert (H1 : netloc (urlparse url) = EmptyString \/ netloc (urlparse url) = domain)
    by now apply Hhost.
  assert (H2 : exists rest, path (urlparse url) = base_path +:+ rest) by now apply Hpre.
  assert (H3 : forall ext, In ext non_document_extensions ->
                           ~ exists stem, path (urlparse url) = stem +:+ ext)
    by now apply Hext.
  destruct (max_depth opts) as [limit|].
  2: { split; [| reflexivity]. intros _. repeat split; try assumption. discriminate. }
  destruct from_url as [[|c p]|].
  - split; [| reflexivity]. intros _. repeat split; try assumption.
    intros l q _ Hq Hne. inversion Hq. congruence.
  - destruct (Z.leb_spec limit (default 0 (url_depth s !! String c p))) as [Hle|Hlt];
      cbn [fst].
    + split; [discriminate |]. intros [_ [_ [_ Hdepth]]].
      specialize (Hdepth limit (String c p) eq_refl eq_refl ltac:(discriminate)). lia.
    + split; [| reflexivity]. intros _. repeat split; try assumption.
      intros l q Hl Hq _. inversion Hl. inversion Hq. subst. assumption.
  - split; [| reflexivity]. intros _. repeat split; try assumption. discriminate.
Qed.

(** X2: the scope filter changes nothing in the converter but the depth
    map, and there only the entry of the URL without its fragment; it
    changes nothing at all when no maximum depth is configured, when no
    non-empty parent is given, or when it rejects the URL. *)
Theorem is_valid_url_touches_one_depth (url : string) (from_url : option string)
        (s : state) :
  let s' := snd (is_valid_url url from_url s) in
  s' = set_url_depth (url_depth s') s /\
  (forall k, k <> strip_fragment url -> url_depth s' !! k = url_depth s !! k) /\
  (max_depth opts = None \/ truthy from_url = false \/
   fst (is_valid_url url from_url s) = false -> s' = s).
Proof.
  cbv zeta. split; [apply is_valid_url_frame |]. unfold is_valid_url.
  destruct (_ && _)%bool; [now split |].
  destruct (negb _); [now split |].
  destruct (PyStr.endswith_any _ _); [now split |].
  destruct (max_depth opts) as [limit|]; [| now split].
  destruct from_url as [[|c p]|]; [now split | | now split].
  destruct (Z.leb_spec limit (default 0 (url_depth s !! String c p))); [now split |].
  cbn [fst snd]. split.
  - intros k Hk. simpl. now rewrite lookup_insert_ne.
  - intros [Ha | [Hb | Hc]]; discriminate.
Qed.


(** *** Link extraction and sitemaps *)


(** What the filter accepts with a parent it accepts without one. *)
Lemma is_valid_url_in_scope (url : string) (from_url : option string) (s : state) :
  fst (is_valid_url url from_url s) = true -> in_scope url = true.
Proof.
  unfold in_scope, is_valid_url.
  destruct (_ && _)%bool; [discriminate |].
  destruct (negb _); [discriminate |].
  destruct (PyStr.endswith_any _ _); [discriminate |].
  intros _. now destruct (max_depth opts).
Qed.

Lemma is_valid_url_unbounded (url : string) (from_url : option string) (s : state) :
  max_depth opts = None -> is_valid_url url from_url s = (in_scope url, s).
Proof.
  intros Hm. unfold in_scope, is_valid_url. rewrite Hm.
  destruct (_ && _)%bool; [reflexivity |].
  destruct (negb _); [reflexivity |].
  now destruct (PyStr.endswith_any _ _).
Qed.

Lemma extract_links_from_sublist (hrefs : list string) (current_url : string) (s : state) :
  sublist (fst (extract_links_from hrefs current_url s))
          (List.map (urljoin current_url) hrefs).
Proof.
  revert s. induction hrefs as [|href hrefs IH]; intros s; simpl; [constructor |].
  destruct (is_valid_url (urljoin current_url href) (Some current_url) s) as [ok s1].
  specialize (IH s1).
  destruct (extract_links_from hrefs current_url s1) as [links s2]. simpl in IH.
  destruct (_ && _)%bool; simpl; [now apply sublist_skip | now apply sublist_cons].
Qed.

Lemma extract_links_from_in_scope (hrefs : list string) (current_url : string)
      (s : state) (x : string) :
  x ∈ fst (extract_links_from hrefs current_url s) -> in_scope x = true.
Proof.
  revert s. induction hrefs as [|href hrefs IH]; intros s; simpl.
  - intros H. now apply elem_of_nil in H.
  - pose proof (is_valid_url_in_scope (urljoin current_url href) (Some current_url) s) as Hv.
    destruct (is_valid_url (urljoin current_url href) (Some current_url) s) as [ok s1].
    simpl in Hv. specialize (IH s1).
    destruct (extract_links_from hrefs current_url s1) as [links s2]. simpl in IH.
    destruct ok; simpl; [| exact IH].
    destruct (bool_decide _); simpl; [exact IH |].
    intros Hx. apply elem_of_cons in Hx as [-> | Hx]; [now apply Hv | now apply IH].
Qed.

Lemma extract_links_from_unbounded (hrefs : list string) (current_url : string) (s : state) :
  max_depth opts = None ->
  extract_links_from hrefs current_url s
  = (List.filter (fun u => (in_scope u && negb (bool_decide (u ∈ visited_urls s)))%bool)
                 (List.map (urljoin current_url) hrefs), s).
Proof.
  intros Hm. induction hrefs as [|href hrefs IH]; simpl; [reflexivity |].
  rewrite (is_valid_url_unbounded _ _ _ Hm), IH.
  now destruct (_ && _)%bool.
Qed.

(** X3: the links that [extract_links] returns are resolved anchors of
    the page in document order (repetitions are kept), each passes the
    host, path and extension tests and none is visited; the call changes
    the depth map only, and when no maximum depth is configured it
    changes nothing and returns every resolved anchor that is in scope
    and not visited. *)
Theorem extract_links_sound (d : soup) (current_url : string) (s : state) :
  let links := fst (extract_links d current_url s) in
  let s' := snd (extract_links d current_url s) in
  sublist links (List.map (urljoin current_url) (Dom.anchors d)) /\
  (forall u, u ∈ links -> in_scope u = true /\ (u ∉ visited_urls s)) /\
  s' = set_url_depth (url_depth s') s /\
  (max_depth opts = None ->
   s' = s /\
   links = List.filter (fun u => (in_scope u && negb (bool_decide (u ∈ visited_urls s)))%bool)
                       (List.map (urljoin current_url) (Dom.anchors d))).
Proof.
  cbv zeta. unfold extract_links. split; [apply extract_links_from_sublist |].
  split; [| split; [apply extract_links_from_frame |]].
  - intros u Hu. split.
    + now apply extract_links_from_in_scope in Hu.
    + now apply extract_links_from_unvisited in Hu.
  - intros Hm. rewrite (extract_links_from_unbounded _ _ _ Hm). now split.
Qed.

Lemma sublist_list_filter {A : Type} (f : A -> bool) (l : list A) :
  sublist (List.filter f l) l.
Proof.
  induction l as [|x l IH]; simpl; [constructor |].
  destruct (f x); [now apply sublist_skip | now apply sublist_cons].
Qed.

Lemma sitemap_urls_sublist (s : state) (sm : sitemap) :
  sublist (sitemap_urls s sm) (sitemap_locs sm).
Proof.
  induction sm as [locs | subs IH] using sitemap_induction; simpl.
  - apply sublist_list_filter.
  - induction IH as [|sub subs Hsub _ IHsubs]; simpl; [constructor |].
    apply sublist_app; [| exact IHsubs]. destruct sub; [exact Hsub | constructor].
Qed.






(** *** The outcomes of page processing *)

(** X5: a page that cannot be fetched, that the content or the category
    filter rejects, or in which no main content is found yields no
    element, no content entry and no link: [process_page] returns the
    empty list and only the fetch is recorded. *)
Theorem process_page_skips (url : string) (s : state) :
  http_get_html url = None \/
  (exists page, http_get_html url = Some page /\
                (check_content_filters page = false \/
                 check_category page = false \/
                 main_content (strip_chrome page) = None)) ->
  process_page url s = ([], log_fetch url s).
Proof.
  intros [Hnone | [page [Hpage Hskip]]]; unfold process_page.
  - now rewrite Hnone.
  - rewrite Hpage. destruct (check_content_filters page); cbn [negb]; [| reflexivity].
    destruct (check_category page); cbn [negb]; [| reflexivity].
    destruct Hskip as [H | [H | H]]; try discriminate. cbv zeta. now rewrite H.
Qed.

Lemma block_of_no_break (url : string) (e : list Dom.head * node) (b : list flowable) :
  block_of url e = Some b -> ~ In PageBreak b.
Proof.
  unfold block_of, new_paragraph.
  repeat match goal with
         | |- context [if ?c then _ else _] => destruct c
         | |- context [match ?o with Some _ => _ | None => _ end] => destruct o
         end; simpl; intros H; inversion H; subst; simpl; intros Hin;
    repeat (destruct Hin as [Hin | Hin]; [discriminate Hin |]); exact Hin.
Qed.

Lemma extract_blocks_no_break (url : string) (es : list (list Dom.head * node))
      (bs : list flowable) :
  extract_blocks url es = Some bs -> ~ In PageBreak bs.
Proof.
  revert bs. induction es as [|e es IH]; simpl; intros bs H.
  - inversion H. intros [].
  - destruct (block_of url e) as [b|] eqn:Hb; [| discriminate]. simpl in H.
    destruct (extract_blocks url es) as [bs'|]; [| discriminate]. simpl in H.
    inversion H; subst. intros Hin. apply in_app_or in Hin as [Hin | Hin].
    + now apply (block_of_no_break url e b).
    + now apply (IH bs').
Qed.

(** X6: when [process_page] returns elements, the page was fetched,
    passed both filters and has a main content; the elements are the
    title paragraph, the source paragraph, the blocks of the main content
    and one page break, which is the last element and the only one; and
    the content entry of the page is stored. *)
Theorem process_page_elements (url : string) (s : state) :
  fst (process_page url s) <> [] ->
  exists page main blocks,
    http_get_html url = Some page /\
    check_content_filters page = true /\ check_category page = true /\
    main_content (strip_chrome page) = Some main /\
    extract_blocks url (Dom.find_all block_tags main) = Some blocks /\
    fst (process_page url s)
    = Paragraph ("<b>" +:+ show_title (page_title (strip_chrome page) url) +:+ "</b>")
                TitleStyle
      :: Paragraph ("Source: " +:+ url) URLStyle :: blocks ++ [PageBreak] /\
    ~ In PageBreak blocks /\
    dict_get url (contents (snd (process_page url s)))
    = Some {| pc_title := page_title (strip_chrome page) url; pc_html := main;
              pc_text := Dom.get_text main; pc_url := url |}.
Proof.
  intros Hne.
  destruct (http_get_html url) as [page|] eqn:Hpage;
    [| exfalso; apply Hne; unfold process_page; now rewrite Hpage].
  destruct (check_content_filters page) eqn:Hf;
    [| exfalso; apply Hne; unfold process_page; now rewrite Hpage, Hf].
  destruct (check_category page) eqn:Hc;
    [| exfalso; apply Hne; unfold process_page; now rewrite Hpage, Hf, Hc].
  destruct (main_content (strip_chrome page)) as [main|] eqn:Hm;
    [| exfalso; apply Hne; unfold process_page; rewrite Hpage, Hf, Hc;
       cbn [negb]; cbv zeta; now rewrite Hm].
  pose proof (build_elements_effect (strip_chrome page) main url
                (stored url (strip_chrome page) main s)) as He.
  cbv zeta in He. destruct He as [_ [_ [_ [Hcont _]]]].
  rewrite (process_page_accepted url page main s Hpage Hf Hc Hm) in Hne |- *.
  assert (Hget : dict_get url
                   (contents (snd (build_elements (strip_chrome page) main url
                                     (stored url (strip_chrome page) main s))))
                 = Some {| pc_title := page_title (strip_chrome page) url; pc_html := main;
                           pc_text := Dom.get_text main; pc_url := url |})
    by (rewrite Hcont; apply dict_get_set_same).
  revert Hne Hget. unfold build_elements, new_paragraph.
  destruct (paragraph_ok ("<b>" +:+ _)); [| intros H; now destruct H].
  destruct (paragraph_ok ("Source: " +:+ _)); [| intros H; now destruct H].
  destruct (extract_blocks url (Dom.find_all block_tags main)) as [blocks|] eqn:Hb;
    [| intros H; now destruct H].
  intros _ Hget. exists page, main, blocks.
  repeat split; try reflexivity; try assumption.
  all: first [exact Hget | exact (extract_blocks_no_break url _ blocks Hb)].
Qed.


(** *** What the main loop fetches *)

Lemma build_elements_frontier_scope (d : soup) (main : node) (url : string) (s : state)
      (x : string) :
  x ∈ to_visit (snd (build_elements d main url s)) ->
  x ∈ to_visit s \/ in_scope x = true.
Proof.
  unfold build_elements.
  destruct (new_paragraph _ TitleStyle); [| now left].
  destruct (new_paragraph _ URLStyle); [| now left].
  assert (Hgoal :
    x ∈ to_visit (if use_sitemap opts then s
                  else let '(new_links, s') := extract_links d url s in
                       enqueue new_links s') ->
    x ∈ to_visit s \/ in_scope x = true).
  { destruct (use_sitemap opts); [now left |]. unfold extract_links.
    pose proof (extract_links_from_frame (Dom.anchors d) url s) as Hf.
    pose proof (extract_links_from_in_scope (Dom.anchors d) url s) as Hsc.
    destruct (extract_links_from (Dom.anchors d) url s) as [links s1]. simpl in Hf, Hsc.
    rewrite enqueue_frame, Hf. simpl.
    destruct (discover_enqueue_spec links (visited_urls s) (to_visit s))
      as [new [Heq [_ Hnew]]].
    rewrite Heq. intros Hx. apply elem_of_app in Hx as [Hx | Hx]; [now left |].
    right. apply Hsc. now apply Hnew. }
  destruct (extract_blocks _ _); exact Hgoal.
Qed.

Lemma process_page_frontier_scope (url : string) (s : state) (x : string) :
  x ∈ to_visit (snd (process_page url s)) ->
  x ∈ to_visit s \/ in_scope x = true.
Proof.
  unfold process_page.
  destruct (http_get_html url) as [page|]; [| now left].
  destruct (negb (check_content_filters page)); [now left |].
  destruct (negb (check_category page)); [now left |].
  destruct (main_content (strip_chrome page)) as [main|]; [| now left].
  cbv zeta. intros Hx. now apply build_elements_frontier_scope in Hx.
Qed.

(** What a turn does to the two traces and to the frontier. *)
Lemma crawl_body_traces (s : state) (u : string) (rest : list string) :
  to_visit s = u :: rest ->
  ((u ∈ visited_urls s) /\ fetched (crawl_body s) = fetched s /\
   attempted (crawl_body s) = attempted s /\ to_visit (crawl_body s) = rest) \/
  ((u ∉ visited_urls s) /\ fetched (crawl_body s) = u :: fetched s /\
   attempted (crawl_body s) = u :: attempted s /\
   (forall x, x ∈ to_visit (crawl_body s) -> x ∈ rest \/ in_scope x = true) /\
   (use_sitemap opts = true -> to_visit (crawl_body s) = rest)).
Proof.
  intros Hq. destruct (decide (u ∈ visited_urls s)) as [Hin|Hin].
  - left. rewrite (crawl_body_skip s u rest) by assumption. now repeat split.
  - right. rewrite (crawl_body_visit s u rest) by assumption.
    pose proof (process_page_effect u (visit u (set_to_visit rest s))) as He.
    cbv zeta in He. destruct He as [_ [H2 [_ [_ [H5 [_ H7]]]]]].
    split; [assumption |]. cbn [fetched attempted to_visit set_pdf_elements].
    rewrite H2, H5. repeat split.
    + intros x Hx. now apply process_page_frontier_scope in Hx.
    + exact H7.
Qed.

(** X7: in sitemap mode the main loop never adds to the frontier: at
    every moment the frontier is what is left of the one the loop
    started from, so whatever is attempted was in that frontier (or had
    been attempted before). *)
Theorem sitemap_mode_frontier (s0 s : state) :
  use_sitemap opts = true ->
  crawl_reaches s0 s ->
  (exists taken, to_visit s0 = taken ++ to_visit s) /\
  (forall u, u ∈ attempted s -> u ∈ attempted s0 \/ u ∈ to_visit s0).
Proof.
  intros Hsm Hr. induction Hr as [|s Hr [[taken Ht] Ha] Hc].
  - split; [now exists [] | intros u Hu; now left].
  - apply crawl_cond_queue in Hc. destruct (to_visit s) as [|u rest] eqn:Hq; [congruence |].
    assert (Hu0 : u ∈ to_visit s0)
      by (rewrite Ht; apply elem_of_app; right; now left).
    destruct (crawl_body_traces s u rest Hq)
      as [[_ [_ [Hat Hrest]]] | [_ [_ [Hat [_ Hrest]]]]].
    + rewrite Hat, Hrest. split; [| exact Ha].
      exists (taken ++ [u]). now rewrite <- app_assoc.
    + rewrite Hat, (Hrest Hsm). split.
      * exists (taken ++ [u]). now rewrite <- app_assoc.
      * intros x Hx. apply elem_of_cons in Hx as [-> | Hx]; [now right | now apply Ha].
Qed.

(** X8: the main loop stays in scope: every URL in the frontier, and
    every URL attempted, was in the frontier the loop started from, had
    been attempted before, or passes the host, path and extension tests
    of the scope filter. *)
Theorem crawl_stays_in_scope (s0 s : state) (u : string) :
  crawl_reaches s0 s ->
  u ∈ to_visit s \/ u ∈ attempted s ->
  u ∈ to_visit s0 \/ u ∈ attempted s0 \/ in_scope u = true.
Proof.
  intros Hr. revert u. induction Hr as [|s Hr IH Hc]; intros x Hx.
  - destruct Hx; auto.
  - apply crawl_cond_queue in Hc. destruct (to_visit s) as [|u rest] eqn:Hq; [congruence |].
    destruct (crawl_body_traces s u rest Hq)
      as [[_ [_ [Hat Hrest]]] | [_ [_ [Hat [Hnew _]]]]].
    + rewrite Hat, Hrest in Hx. apply IH. destruct Hx as [Hx | Hx]; [| now right].
      left. now right.
    + rewrite Hat in Hx. destruct Hx as [Hx | Hx].
      * destruct (Hnew x Hx) as [Hx' | Hx']; [| auto]. apply IH. left. now right.
      * apply elem_of_cons in Hx as [-> | Hx]; apply IH; [left; now left | now right].
Qed.

(** X9: the main loop downloads a page exactly when it adds its URL to
    the visited set: the fetches of the loop are the attempted URLs, in
    the same order, so no page is downloaded twice, and with a page
    limit that is not negative at most that many pages are downloaded;
    outside the interactive mode nothing is fetched before the loop. *)
Theorem crawl_fetches_once (fuel0 : nat) (s0 s : state) :
  seed fuel0 = Some (inl s0) ->
  crawl_reaches s0 s ->
  fetched s = attempted s ++ fetched s0 /\
  NoDup (attempted s) /\
  (0 <= max_pages opts -> Z.of_nat (length (attempted s)) <= max_pages opts) /\
  (interactive opts = false -> fetched s0 = []).
Proof.
  intros Hseed Hr. pose proof Hseed as Hseed'.
  apply seed_fresh in Hseed as [Hfresh _].
  pose proof (crawl_inv_reaches s0 s (fresh_crawl_inv s0 Hfresh) Hr) as [Hnd [_ [Hsz _]]].
  split; [| split; [exact Hnd | split]].
  - destruct Hfresh as [_ [Ha0 _]]. clear Hnd Hsz Hseed'.
    induction Hr as [|s Hr IH Hc]; [now rewrite Ha0 |].
    apply crawl_cond_queue in Hc. destruct (to_visit s) as [|u rest] eqn:Hq; [congruence |].
    destruct (crawl_body_traces s u rest Hq)
      as [[_ [Hf [Hat _]]] | [_ [Hf [Hat _]]]]; rewrite Hf, Hat, IH; reflexivity.
  - intros Hpos. rewrite <- Hsz. clear Hnd Hsz Hseed'.
    induction Hr as [|s Hr IH Hc].
    + destruct Hfresh as [Hv _]. rewrite Hv, size_empty. exact Hpos.
    + apply crawl_cond_upto_queue in Hc as [u [rest [Hq Hlt]]].
      assert (Hne : to_visit s <> []) by congruence.
      destruct (crawl_body_size s Hne); lia.
  - intros Hi. unfold seed in Hseed'. rewrite Hi in Hseed'.
    inversion Hseed'. now destruct (use_sitemap opts).
Qed.


(** *** Reachable pages and the page budget *)

Lemma followed_links_accepted (u : string) (page : soup) (main : node) :
  http_get_html u = Some page ->
  check_content_filters page = true ->
  check_category page = true ->
  main_content (strip_chrome page) = Some main ->
  paragraph_ok ("<b>" +:+ show_title (page_title (strip_chrome page) u) +:+ "</b>") = true ->
  paragraph_ok ("Source: " +:+ u) = true ->
  followed_links u
  = List.filter in_scope (List.map (urljoin u) (Dom.anchors (strip_chrome page))).
Proof.
  intros Hpage Hf Hc Hm Hp1 Hp2. unfold followed_links.
  rewrite Hpage, <- strip_chrome_without. cbv zeta. now rewrite Hm, Hf, Hc, Hp1, Hp2.
Qed.















(** *** The content entries *)

Lemma dict_set_keys {V : Type} (k : string) (v : V) (d : list (string * V)) :
  In k (List.map fst d) /\ List.map fst (dict_set k v d) = List.map fst d \/
  ~ In k (List.map fst d) /\ List.map fst (dict_set k v d) = List.map fst d ++ [k].
Proof.
  induction d as [|[k' v'] d IH]; simpl.
  - right. split; [intros [] | reflexivity].
  - destruct (String.eqb_spec k k') as [->|Hne]; simpl.
    + left. split; [now left | reflexivity].
    + destruct IH as [[Hin Heq] | [Hin Heq]]; rewrite Heq.
      * left. split; [now right | reflexivity].
      * right. split; [| reflexivity]. intros [H | H]; [congruence | contradiction].
Qed.

Lemma dict_set_entries {V : Type} (P : string * V -> Prop) (k : string) (v : V)
      (d : list (string * V)) :
  P (k, v) -> Forall P d -> Forall P (dict_set k v d).
Proof.
  intros Hk Hd. induction Hd as [|[k' v'] d Hx Hd IH]; simpl.
  - now constructor.
  - destruct (String.eqb k k'); constructor; assumption.
Qed.

Lemma dict_get_unique {V : Type} (k : string) (v : V) (d : list (string * V)) :
  NoDup (List.map fst d) -> In (k, v) d -> dict_get k d = Some v.
Proof.
  induction d as [|[k' v'] d IH]; simpl; [intros _ [] |].
  intros Hnd Hin. apply NoDup_cons in Hnd as [Hk' Hnd].
  destruct (String.eqb_spec k k') as [->|Hne].
  - destruct Hin as [Heq | Hin]; [now inversion Heq |].
    destruct Hk'. apply list_elem_of_In, in_map_iff. now exists (k', v).
  - destruct Hin as [Heq | Hin]; [inversion Heq; congruence | now apply IH].
Qed.

(** What [process_page] stores, with the URL that the entry carries. *)
Lemma process_page_contents (url : string) (s : state) :
  contents (snd (process_page url s)) = contents s \/
  exists rec, pc_url rec = url /\
              contents (snd (process_page url s)) = dict_set url rec (contents s).
Proof.
  unfold process_page.
  destruct (http_get_html url) as [page|]; [| now left].
  destruct (negb (check_content_filters page)); [now left |].
  destruct (negb (check_category page)); [now left |].
  destruct (main_content (strip_chrome page)) as [main|]; [| now left].
  match goal with
  | |- context [build_elements ?d ?m ?u ?s1] =>
      pose proof (build_elements_effect d m u s1) as He
  end.
  cbv zeta in He |- *. destruct He as [_ [_ [_ [H4 _]]]]. rewrite H4.
  right. eexists. split; [| reflexivity]. reflexivity.
Qed.

Lemma contents_inv_body (s : state) :
  contents_inv s -> to_visit s <> [] -> contents_inv (crawl_body s).
Proof.
  intros [Hnd [Hsub Hurl]] Hq.
  destruct (to_visit s) as [|u rest] eqn:Hqe; [congruence |].
  destruct (decide (u ∈ visited_urls s)) as [Hin|Hin].
  - rewrite (crawl_body_skip s u rest) by assumption. now repeat split.
  - rewrite (crawl_body_visit s u rest) by assumption.
    pose proof (process_page_effect u (visit u (set_to_visit rest s))) as He.
    cbv zeta in He. destruct He as [H1 _].
    unfold contents_inv. cbn [contents visited_urls set_pdf_elements]. rewrite H1.
    cbn [visited_urls visit].
    destruct (process_page_contents u (visit u (set_to_visit rest s)))
      as [-> | [rec [Hrec ->]]]; cbn [contents visit set_to_visit].
    + repeat split; try assumption. intros k Hk. apply elem_of_union. right. now apply Hsub.
    + destruct (dict_set_keys u rec (contents s)) as [[Hk Heq] | [Hk Heq]]; rewrite Heq.
      * destruct Hin. now apply Hsub.
      * repeat split.
        -- apply NoDup_app. repeat split; [assumption | | apply NoDup_singleton].
           intros x Hx Hx'. apply list_elem_of_singleton in Hx'. subst.
           now apply list_elem_of_In in Hx.
        -- intros k Hk'. apply elem_of_union. apply in_app_or in Hk' as [Hk' | [<- | []]].
           ++ right. now apply Hsub.
           ++ left. now apply elem_of_singleton.
        -- now apply dict_set_entries.
Qed.

(** X10: in every crawl run the content entries have pairwise different
    URLs as keys, every key is a visited URL and is the URL the entry
    carries, and looking a key up gives back its entry; so a renderer
    that goes through the entries writes every page once. *)
Theorem contents_keys_visited (fuel0 : nat) (s0 s : state) :
  seed fuel0 = Some (inl s0) ->
  crawl_reaches s0 s ->
  NoDup (List.map fst (contents s)) /\
  (forall k rec, In (k, rec) (contents s) ->
                 (k ∈ visited_urls s) /\ pc_url rec = k /\
                 dict_get k (contents s) = Some rec).
Proof.
  intros Hseed Hr. apply seed_fresh in Hseed as [[_ [_ [Hc0 _]]] _].
  assert (Hinv : contents_inv s).
  { induction Hr as [|s Hr IH Hc].
    - unfold contents_inv. rewrite Hc0. repeat split; [constructor | intros k [] | constructor].
    - apply contents_inv_body; [exact IH | now apply crawl_cond_queue]. }
  destruct Hinv as [Hnd [Hsub Hurl]]. split; [exact Hnd |].
  intros k rec Hin. repeat split.
  - apply Hsub. apply in_map_iff. now exists (k, rec).
  - rewrite Forall_forall in Hurl. exact (Hurl (k, rec) (proj2 (list_elem_of_In _ _) Hin)).
  - now apply dict_get_unique.
Qed.


(** *** The interactive mode *)

Lemma discovery_inv_body (s : state) (ds : discovery) :
  discovery_inv s ds -> discovery_inv s (discover_body ds).
Proof.
  intros Hinv. unfold discover_body.
  destruct (d_to_visit ds) as [|u rest]; [assumption |].
  destruct (bool_decide_reflect (u ∈ temp_visited ds)) as [Hin|Hin]; [assumption |].
  destruct Hinv as [Hnd [Hiff [Hsz [Hf [H1 [H2 [H3 [H4 H5]]]]]]]].
  assert (Hcommon :
    NoDup (discovered_urls ds ++ [u]) /\
    (forall x, x ∈ {[u]} ∪ temp_visited ds <-> x ∈ discovered_urls ds ++ [u]) /\
    size ({[u]} ∪ temp_visited ds) = length (discovered_urls ds ++ [u]) /\
    u :: fetched (d_state ds) = rev (discovered_urls ds ++ [u]) ++ fetched s).
  { repeat split.
    - apply NoDup_app. repeat split; [assumption | | apply NoDup_singleton].
      intros x Hx Hx'. apply list_elem_of_singleton in Hx'. subst. apply Hin. now apply Hiff.
    - intros Hx. apply elem_of_app. apply elem_of_union in Hx as [Hx | Hx].
      + right. apply elem_of_singleton in Hx. subst. now left.
      + left. now apply Hiff.
    - intros Hx. apply elem_of_union. apply elem_of_app in Hx as [Hx | Hx].
      + right. now apply Hiff.
      + left. apply list_elem_of_singleton in Hx. now apply elem_of_singleton.
    - rewrite size_visit by assumption. rewrite length_app. simpl. lia.
    - rewrite rev_app_distr. simpl. now rewrite Hf. }
  destruct Hcommon as [C1 [C2 [C3 C4]]].
  destruct (http_get_html u) as [page|].
  - unfold extract_links.
    pose proof (extract_links_from_frame (Dom.anchors page) u (log_fetch u (d_state ds)))
      as Hfr.
    destruct (extract_links_from _ _ _) as [links s2]. simpl in Hfr.
    unfold discovery_inv. cbn [d_state temp_visited discovered_urls]. rewrite Hfr.
    split; [exact C1 |]. split; [exact C2 |]. split; [exact C3 |]. split; [exact C4 |].
    simpl. now repeat split.
  - unfold discovery_inv. cbn [d_state temp_visited discovered_urls].
    split; [exact C1 |]. split; [exact C2 |]. split; [exact C3 |]. split; [exact C4 |].
    simpl. now repeat split.
Qed.

(** X11: the discovery crawl of the interactive mode lists every URL
    once, downloads exactly the listed URLs, one download each and in
    that order, lists at most as many URLs as the page limit allows when
    that is not negative, and leaves the visited set, the frontier, the
    content entries and the PDF elements of the converter as they are. *)
Theorem discovery_distinct_bounded (fuel : nat) (s : state) (ds : discovery) :
  while discover_cond discover_body fuel
        {| d_state := s; temp_visited := ∅; d_to_visit := [base_url];
           discovered_urls := [] |} = Some ds ->
  NoDup (discovered_urls ds) /\
  fetched (d_state ds) = rev (discovered_urls ds) ++ fetched s /\
  (0 <= max_pages opts -> Z.of_nat (length (discovered_urls ds)) <= max_pages opts) /\
  visited_urls (d_state ds) = visited_urls s /\ to_visit (d_state ds) = to_visit s /\
  contents (d_state ds) = contents s /\ pdf_elements (d_state ds) = pdf_elements s.
Proof.
  intros Hw.
  pose proof Hw as Hw'.
  apply (while_invariant discover_cond discover_body (discovery_inv s)) in Hw as [Hinv _].
  - destruct Hinv as [Hnd [_ [Hsz [Hf [H1 [H2 [H3 [H4 _]]]]]]]].
    repeat split; try assumption.
    intros Hpos. rewrite <- Hsz.
    apply (while_invariant discover_cond discover_body
             (fun ds => Z.of_nat (size (temp_visited ds)) <= max_pages opts)) in Hw'.
    + apply Hw'.
    + intros d Hd Hc. unfold discover_cond in Hc. unfold discover_body.
      destruct (d_to_visit d) as [|u rest]; simpl in Hc; [discriminate |].
      apply Z.ltb_lt in Hc.
      destruct (bool_decide_reflect (u ∈ temp_visited d)) as [Hin|Hin]; [exact Hd |].
      destruct (http_get_html u) as [page|].
      * destruct (extract_links page u _) as [links s2]. simpl.
        rewrite size_visit by assumption. lia.
      * simpl. rewrite size_visit by assumption. lia.
    + cbn [temp_visited]. rewrite size_empty. exact Hpos.
  - intros d Hd _. now apply discovery_inv_body.
  - unfold discovery_inv. simpl. repeat split; try constructor.
    + intros H. now apply elem_of_empty in H.
    + intros H. now apply elem_of_nil in H.
Qed.

Lemma pick_segment (urls : list string) (a n : nat) :
  (a + n <= length urls)%nat ->
  pick urls (List.map (fun i => Z.of_nat (S i)) (seq a n)) = take n (drop a urls).
Proof.
  revert a. induction n as [|n IH]; intros a Hlen; simpl; [reflexivity |].
  change (flat_map _ (List.map _ (seq (S a) n)))
    with (pick urls (List.map (fun i => Z.of_nat (S i)) (seq (S a) n))).
  rewrite IH by lia.
  replace (Z.of_nat (S a) - 1) with (Z.of_nat a) by lia.
  destruct (Z.leb_spec 0 (Z.of_nat a)); [| lia].
  destruct (Z.ltb_spec (Z.of_nat a) (Z.of_nat (length urls))); [| lia].
  cbn [andb]. rewrite Nat2Z.id.
  destruct (urls !! a) as [x|] eqn:Hx.
  - rewrite (drop_S urls x a Hx). reflexivity.
  - apply lookup_ge_None in Hx. lia.
Qed.

(** X12: the selection by numbers in the interactive mode.  Every
    selected URL is one of the listed URLs; a number below 1 or above
    the length of the list selects nothing (0 does not select the last
    URL); and typing all the numbers from 1 to the length, in order,
    selects the whole list, as the answer "all" does. *)
Theorem pick_selects (urls : list string) :
  (forall numbers u, In u (pick urls numbers) -> In u urls) /\
  (forall numbers,
      (forall n, In n numbers -> n < 1 \/ Z.of_nat (length urls) < n) ->
      pick urls numbers = []) /\
  pick urls (List.map (fun i => Z.of_nat (S i)) (seq 0 (length urls))) = urls.
Proof.
  split; [| split].
  - intros numbers u Hin. unfold pick in Hin. apply in_flat_map in Hin as [n [_ Hu]].
    destruct (_ && _)%bool; [| destruct Hu].
    destruct (urls !! Z.to_nat (n - 1)) as [x|] eqn:Hx; [| destruct Hu].
    destruct Hu as [<- | []]. apply list_elem_of_In. now apply list_elem_of_lookup_2 in Hx.
  - intros numbers Hout. unfold pick. induction numbers as [|n numbers IH]; [reflexivity |].
    simpl. rewrite IH by (intros m Hm; apply Hout; now right).
    destruct (Hout n (or_introl eq_refl)) as [Hlow | Hhigh].
    + destruct (Z.leb_spec 0 (n - 1)); [lia | reflexivity].
    + destruct (Z.ltb_spec (n - 1) (Z.of_nat (length urls))); [lia |].
      now rewrite andb_false_r.
  - rewrite pick_segment by lia. rewrite drop_0. apply firstn_all.
Qed.


(** *** When the renderers fail *)

(** X13: the Markdown renderer fails, and [create_markdown] returns
    False, exactly when some content entry has no title string; this is
    the case of a page whose title element wraps no single string, such
    as an empty one.  The JSON renderer writes the same entries without
    failing. *)
Theorem create_markdown_fails_iff (s : state) :
  (create_markdown s = None <->
   exists e, In e (contents s) /\ pc_title (snd e) = None) /\
  (forall d url cl ats,
      Dom.find_tag "title" d = Some (Elem "title" cl ats []) -> page_title d url = None) /\
  create_json s <> None.
Proof.
  split; [apply create_markdown_none | split; [| discriminate]].
  intros d url cl ats Ht. unfold page_title. now rewrite Ht.
Qed.

(** *** The anchor of any title *)

Lemma has_char_replace_other (c old : ascii) (new s : string) :
  PyStr.has_char c new = false -> PyStr.has_char c s = false ->
  PyStr.has_char c (PyStr.replace_char old new s) = false.
Proof.
  intros Hnew. induction s as [|x s IH]; simpl; [reflexivity |].
  intros H. apply orb_false_iff in H as [Hx Hs].
  destruct (Ascii.eqb x old); simpl.
  - rewrite has_char_append, Hnew. now apply IH.
  - rewrite Hx. now apply IH.
Qed.

Lemma has_char_replace_same (old : ascii) (new s : string) :
  PyStr.has_char old new = false ->
  PyStr.has_char old (PyStr.replace_char old new s) = false.
Proof.
  intros Hnew. induction s as [|x s IH]; simpl; [reflexivity |].
  destruct (Ascii.eqb_spec x old) as [->|Hne]; simpl.
  - now rewrite has_char_append, Hnew.
  - rewrite IH, orb_false_r. apply Ascii.eqb_neq. congruence.
Qed.

Lemma lower_ascii_not_upper (c x : ascii) :
  is_upper c = true -> Ascii.eqb c (PyStr.lower_ascii x) = false.
Proof.
  intros Hc. apply Ascii.eqb_neq. intros ->. revert Hc.
  destruct x as [[] [] [] [] [] [] [] []]; vm_compute; discriminate.
Qed.

Lemma has_char_lower (c : ascii) (s : string) :
  is_upper c = true -> PyStr.has_char c (PyStr.lower s) = false.
Proof.
  intros Hc. induction s as [|x s IH]; simpl; [reflexivity |].
  now rewrite lower_ascii_not_upper, IH.
Qed.

(** X14: whatever the title, its Markdown anchor contains no space, no
    colon, no period and no upper-case letter. *)
Theorem markdown_anchor_clean (title : string) (c : ascii) :
  c = " "%char \/ c = ":"%char \/ c = "."%char \/ is_upper c = true ->
  PyStr.has_char c (markdown_anchor title) = false.
Proof.
  unfold markdown_anchor. intros [-> | [-> | [-> | Hup]]].
  - apply has_char_replace_other; [reflexivity |].
    apply has_char_replace_other; [reflexivity |].
    now apply has_char_replace_same.
  - apply has_char_replace_other; [reflexivity |]. now apply has_char_replace_same.
  - now apply has_char_replace_same.
  - assert (Hd : PyStr.has_char c "-" = false).
    { simpl. rewrite orb_false_r. apply Ascii.eqb_neq. intros ->. discriminate Hup. }
    apply has_char_replace_other; [reflexivity |].
    apply has_char_replace_other; [reflexivity |].
    apply has_char_replace_other; [exact Hd |]. now apply has_char_lower.
Qed.

(** *** The output path of the command line *)

Lemma endswith_append (stem p : string) : PyStr.endswith p (stem +:+ p) = true.
Proof. apply endswith_spec. now exists stem. Qed.

(** X15: the output path that the command line derives always ends in
    a period and the format; a path that already ends so is kept, and
    deriving the path again from the result changes nothing. *)
Theorem output_path_suffix (output : option string) (fmt : string) :
  PyStr.endswith ("." +:+ fmt) (output_path output fmt) = true /\
  (forall p, output = Some p -> p <> EmptyString ->
             PyStr.endswith ("." +:+ fmt) p = true -> output_path output fmt = p) /\
  output_path (Some (output_path output fmt)) fmt = output_path output fmt.
Proof.
  assert (H1 : PyStr.endswith ("." +:+ fmt) (output_path output fmt) = true).
  { unfold output_path. destruct (truthy output); cbn [negb].
    - destruct (PyStr.endswith ("." +:+ fmt) (default "" output)) eqn:He; cbn [negb].
      + exact He.
      + apply endswith_append.
    - change ("output." +:+ fmt) with ("output" +:+ ("." +:+ fmt)). apply endswith_append. }
  split; [exact H1 |]. split.
  - intros p -> Hp He. unfold output_path. destruct p; [congruence |].
    simpl in *. now rewrite He.
  - unfold output_path at 1. simpl default.
    assert (Ht : truthy (Some (output_path output fmt)) = true).
    { apply endswith_spec in H1 as [stem Hs]. rewrite Hs.
      destruct stem; reflexivity. }
    rewrite Ht, H1. reflexivity.
Qed.


(** X16: the HTML renderer fails, and [create_html] returns False,
    exactly when the URL of some content entry has no double slash, from
    which the identifier of its section is taken. *)
Theorem create_html_fails_iff (s : state) :
  create_html s = None <->
  exists e, In e (contents s) /\ ~ occurs_in "//" (fst e).
Proof. apply create_html_none. Qed.

Lemma string_of_snoc (l : list ascii) (c : ascii) (s : string) :
  string_of_list_ascii (l ++ [c]) +:+ s = string_of_list_ascii l +:+ String c s.
Proof. induction l as [|x l IH]; simpl; [reflexivity | now rewrite IH]. Qed.

Lemma split_go_no_slash (cur : list ascii) (seg : string) :
  PyStr.has_char "/" seg = false ->
  PyStr.split_go "/" 0 cur seg = [string_of_list_ascii (rev cur) +:+ seg].
Proof.
  revert cur. induction seg as [|c seg IH]; intros cur; simpl.
  - now rewrite append_empty_r.
  - intros H. apply orb_false_iff in H as [Hc Hs]. rewrite Hc.
    rewrite (IH (c :: cur) Hs). simpl. now rewrite string_of_snoc.
Qed.

Lemma last_cons_nonempty {A : Type} (x : A) (l : list A) (d : A) :
  l <> [] -> List.last (x :: l) d = List.last l d.
Proof. destruct l; [congruence | reflexivity]. Qed.

Lemma split_last_segment (dir seg : string) (cur : list ascii) :
  PyStr.has_char "/" seg = false ->
  forall d, List.last (PyStr.split_go "/" 0 cur (dir +:+ String "/" seg)) d = seg.
Proof.
  intros Hseg. revert cur. induction dir as [|c dir IH]; intros cur d.
  - simpl. now rewrite (split_go_no_slash [] seg Hseg).
  - cbn [String.append PyStr.split_go PyStr.startswith].
    assert (Hne : forall k cur', PyStr.split_go "/" k cur' (dir +:+ String "/" seg) <> []).
    { intros k cur' H. pose proof (split_go_nonempty "/" k cur' (dir +:+ String "/" seg)).
      rewrite H in *. simpl in *. lia. }
    destruct (Ascii.eqb "/" c).
    + cbn [String.length Nat.sub]. rewrite last_cons_nonempty by apply Hne. apply IH.
    + apply IH.
Qed.

(** X17: a page without a title element takes as title the part of its
    URL after the last slash; for a URL that ends in a slash this title
    is the empty string. *)
Theorem page_title_fallback (d : soup) (dir seg : string) :
  Dom.find_tag "title" d = None ->
  PyStr.has_char "/" seg = false ->
  page_title d (dir +:+ "/" +:+ seg) = Some seg /\
  page_title d (dir +:+ "/") = Some EmptyString.
Proof.
  intros Ht Hseg. unfold page_title, PyStr.split_last, PyStr.split. rewrite Ht. split.
  - f_equal. change ("/" +:+ seg) with (String "/" seg). now apply split_last_segment.
  - f_equal. change "/" with (String "/" EmptyString) at 2. now apply split_last_segment.
Qed.

(** *** Stripping, once more *)

Lemma without_in_twice (cs : list Dom.compound) (n : node) :
  flat_map (without_in cs) (without_in cs n) = without_in cs n.
Proof.
  induction n as [t | t cl ats ch IH] using node_induction; simpl; [reflexivity |].
  destruct (existsb (fun c => Dom.matches c (t, cl)) cs) eqn:Hm; simpl; [reflexivity |].
  rewrite Hm. simpl. f_equal. f_equal. rewrite flat_map_flat_map.
  now apply flat_map_ext_Forall.
Qed.

(** X19: the removal of the chrome regions takes away exactly the
    elements matched by one of the seven selectors, with everything below
    them, as one pass over the document would; no such element is left,
    and stripping a stripped document changes nothing. *)
Theorem strip_chrome_removes_chrome (d : soup) :
  strip_chrome d = without chrome_selectors d /\
  (forall c, In c chrome_selectors -> Dom.select [c] (strip_chrome d) = []) /\
  strip_chrome (strip_chrome d) = strip_chrome d.
Proof.
  split; [apply strip_chrome_without |]. split.
  - intros c Hin. rewrite strip_chrome_without. now apply select_without.
  - rewrite !strip_chrome_without. unfold without. rewrite flat_map_flat_map.
    apply flat_map_ext_Forall, Forall_forall. intros n _. apply without_in_twice.
Qed.

(** *** When block extraction raises *)

Lemma block_of_none (url : string) (e : list Dom.head * node) :
  block_of url e = None <->
  (tag_in ["h1"; "h2"; "h3"; "h4"; "p"] (snd e) = true /\
   nonempty (PyStr.strip (Dom.get_text (snd e))) = true /\
   paragraph_ok (PyStr.strip (Dom.get_text (snd e))) = false).
Proof.
  assert (Htag : tag_in ["h1"; "h2"; "h3"; "h4"; "p"] (snd e)
                 = (tag_in ["h1"; "h2"; "h3"; "h4"] (snd e) || tag_in ["p"] (snd e))%bool).
  { unfold tag_in. change ["h1"; "h2"; "h3"; "h4"; "p"] with (["h1"; "h2"; "h3"; "h4"] ++ ["p"]).
    apply existsb_app. }
  rewrite Htag. unfold block_of, new_paragraph.
  destruct (tag_in ["h1"; "h2"; "h3"; "h4"] (snd e)); cbn [orb].
  { destruct (nonempty _); [destruct (paragraph_ok _) |]; simpl;
      split; try discriminate; auto; intros [_ [? ?]]; congruence. }
  destruct (tag_in ["p"] (snd e)).
  { destruct (nonempty _); [destruct (paragraph_ok _) |]; simpl;
      split; try discriminate; auto; intros [_ [? ?]]; congruence. }
  split; [| intros [? _]; discriminate].
  repeat match goal with
         | |- context [if ?c then _ else _] => destruct c
         | |- context [match ?o with Some _ => _ | None => _ end] => destruct o
         end; discriminate.
Qed.

Lemma extract_blocks_app (url : string) (es1 es2 : list (list Dom.head * node)) :
  extract_blocks url (es1 ++ es2)
  = (b1 ← extract_blocks url es1; b2 ← extract_blocks url es2; Some (b1 ++ b2)).
Proof.
  induction es1 as [|e es1 IH].
  - simpl. destruct (extract_blocks url es2); reflexivity.
  - change (extract_blocks url ((e :: es1) ++ es2))
      with (b ← block_of url e; bs ← extract_blocks url (es1 ++ es2); Some (b ++ bs)).
    change (extract_blocks url (e :: es1))
      with (b ← block_of url e; bs ← extract_blocks url es1; Some (b ++ bs)).
    rewrite IH. unfold mbind, option_bind.
    destruct (block_of url e); [| reflexivity].
    destruct (extract_blocks url es1); [| reflexivity].
    destruct (extract_blocks url es2); [| reflexivity].
    now rewrite app_assoc.
Qed.

(** An element that yields no block can be left out of the list. *)
Lemma extract_blocks_skip (url : string) (es1 es2 : list (list Dom.head * node))
      (e : list Dom.head * node) :
  block_of url e = Some [] ->
  extract_blocks url (es1 ++ e :: es2) = extract_blocks url (es1 ++ es2).
Proof.
  intros He. rewrite !extract_blocks_app.
  change (extract_blocks url (e :: es2))
    with (b ← block_of url e; bs ← extract_blocks url es2; Some (b ++ bs)).
  rewrite He. unfold mbind, option_bind.
  destruct (extract_blocks url es1); [| reflexivity].
  now destruct (extract_blocks url es2).
Qed.

(** The block of an image element with a source. *)
Lemma block_of_image (url : string) (e : list Dom.head * node) :
  fst (Dom.head_of (snd e)) = "img" ->
  truthy (Dom.attr "src" (snd e)) = true ->
  block_of url e
  = match download_image (default "" (Dom.attr "src" (snd e))) url with
    | Some img_path => if image_ok img_path then Some [Image img_path; Spacer] else Some []
    | None => Some []
    end.
Proof.
  intros Htag Hsrc. unfold block_of, tag_in. rewrite Htag, Hsrc. reflexivity.
Qed.

(** X20: block extraction raises exactly when the main content has a
    heading or a paragraph with a non-empty text that the PDF library
    refuses as markup; code blocks and images never make it raise.  An
    image with a source that is downloaded and that the library loads
    gives the image and a spacer; an image that cannot be downloaded or
    loaded is left out: the blocks are those of the content without that
    element. *)
Theorem extract_blocks_raises_iff (url : string) (es : list (list Dom.head * node)) :
  (extract_blocks url es = None <->
   exists e, In e es /\
             tag_in ["h1"; "h2"; "h3"; "h4"; "p"] (snd e) = true /\
             nonempty (PyStr.strip (Dom.get_text (snd e))) = true /\
             paragraph_ok (PyStr.strip (Dom.get_text (snd e))) = false) /\
  (forall e src,
      fst (Dom.head_of (snd e)) = "img" ->
      Dom.attr "src" (snd e) = Some src -> src <> EmptyString ->
      (forall img_path,
          download_image src url = Some img_path -> image_ok img_path = true ->
          block_of url e = Some [Image img_path; Spacer]) /\
      (download_image src url = None \/
       (exists img_path, download_image src url = Some img_path /\
                         image_ok img_path = false) ->
       block_of url e = Some [] /\
       forall es1 es2,
         es = es1 ++ e :: es2 ->
         extract_blocks url es = extract_blocks url (es1 ++ es2))).
Proof.
  split.
  - induction es as [|e es IH].
    + split; [discriminate | intros [e [[] _]]].
    + change (extract_blocks url (e :: es))
        with (b ← block_of url e; bs ← extract_blocks url es; Some (b ++ bs)).
      unfold mbind, option_bind.
      destruct (block_of url e) as [b|] eqn:Hb.
      * destruct (extract_blocks url es) as [bs|].
        -- split; [discriminate |]. intros [x [[<- | Hin] Hx]].
           ++ apply (proj2 (block_of_none url e)) in Hx. congruence.
           ++ destruct IH as [_ IH]. discriminate IH. eauto.
        -- split; [| reflexivity]. intros _.
           destruct IH as [IH _]. destruct (IH eq_refl) as [x [Hin Hx]].
           exists x. split; [now right | exact Hx].
      * split; [| reflexivity]. intros _. exists e. split; [now left |].
        now apply (proj1 (block_of_none url e)).
  - intros e src Htag Hsrc Hne.
    assert (Htruthy : truthy (Dom.attr "src" (snd e)) = true)
      by (rewrite Hsrc; destruct src; [congruence | reflexivity]).
    pose proof (block_of_image url e Htag Htruthy) as Hblock.
    rewrite Hsrc in Hblock. simpl default in Hblock. split.
    + intros img_path Hd Hok. now rewrite Hblock, Hd, Hok.
    + intros Hfail.
      assert (Hnil : block_of url e = Some []).
      { rewrite Hblock. destruct Hfail as [-> | [img_path [-> ->]]]; reflexivity. }
      split; [exact Hnil |]. intros es1 es2 ->. now apply extract_blocks_skip.
Qed.

End Converter.

(** ** The format selector and the crawl *)

Section FormatIndependence.

Context (urlparse : string -> parsed_url) (urljoin : string -> string -> string)
        (http_get_html : string -> option soup) (paragraph_ok : string -> bool)
        (download_image : string -> string -> option string) (image_ok : string -> bool)
        (fetch_sitemap : option string -> option sitemap)
        (prompt : list string -> selection) (docx_available : bool)
        (base_url : string) (serialize : node -> string)
        (pdf_build_ok : list flowable -> bool)
        (docx_text_ok : option string -> bool).

(** A run of the converter on these collaborators. *)
Definition run_with (o : options) (fuel : nat) : option outcome :=
  run urlparse urljoin http_get_html paragraph_ok download_image image_ok
      fetch_sitemap prompt docx_available base_url o serialize pdf_build_ok
      docx_text_ok fuel.

(** Seeding and the main loop do not read the format selector. *)
Lemma seed_with_format (f : string) (o : options) (fuel : nat) :
  seed urlparse urljoin http_get_html fetch_sitemap prompt base_url (with_format f o) fuel
  = seed urlparse urljoin http_get_html fetch_sitemap prompt base_url o fuel.
Proof. reflexivity. Qed.

Lemma crawl_with_format (f : string) (o : options) (fuel : nat) (s : state) :
  crawl urlparse urljoin http_get_html paragraph_ok download_image image_ok base_url
        (with_format f o) fuel s
  = crawl urlparse urljoin http_get_html paragraph_ok download_image image_ok base_url
          o fuel s.
Proof. reflexivity. Qed.

(** [main] on these collaborators. *)
Definition main_with (o : options) (fuel : nat) : option outcome :=
  main urlparse urljoin http_get_html paragraph_ok download_image image_ok
       fetch_sitemap prompt docx_available base_url o serialize pdf_build_ok
      docx_text_ok fuel.

(** Every format that the argument parser accepts is supported. *)
Lemma format_choice_supported (f : string) :
  existsb (String.eqb f) format_choices = true -> supported_format f = true.
Proof.
  intros H. apply existsb_exists in H as [c [Hin Heq]].
  apply String.eqb_eq in Heq. subst c.
  repeat (destruct Hin as [<- | Hin]; [reflexivity |]). destruct Hin.
Qed.

(** C1 (amended): a format selector that is not supported is refused
    before any crawling only at the command line, where the argument
    parser ends the process before a converter is built.  Given to the
    converter itself, the run comes to an end and fails, but only after
    the frontier has been seeded and the main loop has run: it returns
    false with nothing written, in the very state that a run with any
    other format reaches, so the same pages are fetched. *)
Theorem unsupported_format_fails_after_crawl (o : options) (f : string) :
  supported_format (format o) = false ->
  (forall fuel, main_with o fuel = Some (Exited 2 (init base_url)) /\
                fetched (init base_url) = []) /\
  (exists fuel r, run_with o fuel = Some r) /\
  (forall fuel ok written s,
      run_with o fuel = Some (Returned ok written s) ->
      ok = false /\ written = None /\
      exists ok' written', run_with (with_format f o) fuel = Some (Returned ok' written' s)) /\
  (forall fuel code s,
      run_with o fuel = Some (Exited code s) ->
      run_with (with_format f o) fuel = Some (Exited code s)).
Proof.
  intros Hf. split; [| split; [apply run_terminates | split]].
  - intros fuel. split; [| reflexivity]. unfold main_with, main.
    destruct (existsb (String.eqb (format o)) format_choices) eqn:Hc; [| reflexivity].
    apply format_choice_supported in Hc. congruence.
  - intros fuel ok written s Hrun.
    pose proof (run_unsupported _ _ _ _ _ _ _ _ _ _ _ _ _ _ fuel _ Hf Hrun) as Hu.
    simpl in Hu. destruct Hu as [Hok [Hw [s0 [Hseed Hcrawl]]]].
    split; [exact Hok |]. split; [exact Hw |].
    unfold run_with, run. rewrite seed_with_format, Hseed. simpl.
    rewrite crawl_with_format, Hcrawl. simpl. eauto.
  - intros fuel code s Hrun.
    pose proof (run_unsupported _ _ _ _ _ _ _ _ _ _ _ _ _ _ fuel _ Hf Hrun) as Hu.
    simpl in Hu. unfold run_with, run. rewrite seed_with_format, Hu. reflexivity.
Qed.

End FormatIndependence.

(** ** Concrete runs *)

Module Runs.

Import Sample.

Definition seed_url : string := "https://example.com/docs/".
Definition url_a : string := "https://example.com/docs/a".
Definition url_b : string := "https://example.com/docs/b".
Definition url_a_top : string := "https://example.com/docs/a#top".

(** The paragraph markup of this instance: an italic tag that is left
    open is refused. *)
Definition markup_ok (text : string) : bool :=
  negb (PyStr.contains "<i>" text && negb (PyStr.contains "</i>" text)).

Definition no_image (_ _ : string) : option string := None.
Definition any_image (_ : string) : bool := true.
Definition answer_all (_ : list string) : selection := SelAll.
Definition plain (n : node) : string := Dom.get_text n.
Definition build_ok (_ : list flowable) : bool := true.

(** The word-processor library of this instance refuses a text with a
    vertical tab. *)
Definition xml_ok (text : option string) : bool :=
  match text with
  | Some t => negb (PyStr.has_char (ascii_of_nat 11) t)
  | None => true
  end.

(** A home page with a link in its navigation bar and one in its main
    content, and the two pages they lead to. *)
Definition home : soup :=
  html_page "Home"
    [Elem "nav" [] [] [link url_a "A"];
     Elem "main" [] [] [Elem "p" [] [] [Text "hello"]; link url_b "B"]].

Definition leaf (title text : string) : soup :=
  html_page title [Elem "main" [] [] [Elem "p" [] [] [Text text]]].

Definition site : list (string * soup) :=
  [(seed_url, home); (url_a, leaf "A" "first"); (url_b, leaf "B" "second")].

(** A site where the seed links to a page through a URL with a fragment,
    and that page links further. *)
Definition deep_site : list (string * soup) :=
  [(seed_url, html_page "Home" [Elem "main" [] [] [link url_a_top "A"]]);
   (url_a_top, html_page "A" [Elem "main" [] [] [link url_b "B"]]);
   (url_a, html_page "A" [Elem "main" [] [] [link url_b "B"]]);
   (url_b, leaf "B" "second")].

(** The same site with the fragment left out of the link. *)
Definition deep_site_plain : list (string * soup) :=
  [(seed_url, html_page "Home" [Elem "main" [] [] [link url_a "A"]]);
   (url_a, html_page "A" [Elem "main" [] [] [link url_b "B"]]);
   (url_b, leaf "B" "second")].


Definition with_limit (n : Z) : options :=
  {| max_pages := n; max_depth := None; format := "json";
     use_sitemap := false; sitemap_url := None; categories := None;
     contains := None; not_contains := None; create_toc := false;
     interactive := false |}.

Definition with_depth (d : Z) : options :=
  {| max_pages := 10; max_depth := Some d; format := "json";
     use_sitemap := false; sitemap_url := None; categories := None;
     contains := None; not_contains := None; create_toc := false;
     interactive := false |}.

Definition from_sitemap : options :=
  {| max_pages := 10; max_depth := None; format := "json";
     use_sitemap := true; sitemap_url := None; categories := None;
     contains := None; not_contains := None; create_toc := false;
     interactive := false |}.

Definition interactively : options :=
  {| max_pages := 10; max_depth := None; format := "json";
     use_sitemap := false; sitemap_url := None; categories := None;
     contains := None; not_contains := None; create_toc := false;
     interactive := true |}.

(** A sitemap that lists a page twice. *)
Definition repeating_sitemap (_ : option string) : option sitemap :=
  Some (UrlSet [url_a; url_a]).

Definition no_sitemap (_ : option string) : option sitemap := None.

(** The converter on a site served from a list. *)
Definition run_on (pages : list (string * soup)) (o : options) (fuel : nat)
  : option outcome :=
  run_with urlparse urljoin (serve pages) markup_ok no_image any_image no_sitemap
           answer_all true seed_url plain build_ok xml_ok o fuel.

Definition seed_on (pages : list (string * soup))
           (sitemaps : option string -> option sitemap) (o : options) (fuel : nat)
  : option (state + Z * state) :=
  seed urlparse urljoin (serve pages) sitemaps answer_all seed_url o fuel.


Definition crawl_body_on (pages : list (string * soup)) (o : options) (s : state) : state :=
  crawl_body urlparse urljoin (serve pages) markup_ok no_image any_image seed_url o s.

Definition start : state := init seed_url.

(** The state in which a run ends, or the start when it does not. *)
Definition final (r : option outcome) : state :=
  match r with
  | Some (Returned _ _ s) => s
  | Some (Exited _ s) => s
  | None => start
  end.


(** *** The format selector *)

Definition unknown_format : options := with_format "pptx" (with_limit 10).

(** C1, counterexample: with the unsupported format "pptx" the run fails
    only after it has fetched the seed page and the page it links to. *)
Lemma unsupported_format_still_fetches :
  supported_format (format unknown_format) = false /\
  exists s, run_on site unknown_format 10 = Some (Returned false None s) /\
            fetched s = [url_b; seed_url].
Proof.
  split; [reflexivity |].
  exists (final (run_on site unknown_format 10)). split; vm_compute; reflexivity.
Qed.

Lemma unsupported_format_witness :
  exists ok written,
    run_on site (with_format "json" unknown_format) 10
    = Some (Returned ok written (final (run_on site unknown_format 10))).
Proof.
  destruct (unsupported_format_fails_after_crawl
              urlparse urljoin (serve site) markup_ok no_image any_image no_sitemap
              answer_all true seed_url plain build_ok xml_ok unknown_format "json" eq_refl)
    as [_ [_ [H _]]].
  destruct (H 10%nat false None (final (run_on site unknown_format 10))) as [_ [_ H']].
  - vm_compute. reflexivity.
  - exact H'.
Defined.

(** *** Links in the chrome regions *)

Definition home_main : node :=
  Elem "main" [] [] [Elem "p" [] [] [Text "hello"]; link url_b "B"].

(** C2: the link of the navigation bar is an anchor of the page, in
    scope and not visited (extraction from the full document returns
    it, and the discovery crawl of the interactive mode, which does not
    strip, finds it), yet processing the page offers the frontier the
    link of the main content only, and the crawl never fetches the page
    behind the navigation link. *)
Lemma chrome_link_not_offered :
  url_a ∈ Dom.anchors home /\
  fst (extract_links urlparse urljoin seed_url (with_limit 10) home seed_url
         (visit seed_url (set_to_visit [] start)))
  = [url_a; url_b] /\
  to_visit (crawl_body_on site (with_limit 10) start) = [url_b] /\
  fetched (final (run_on site (with_limit 10) 10)) = [url_b; seed_url] /\
  (exists s0, seed_on site no_sitemap interactively 10 = Some (inl s0) /\
              to_visit s0 = [seed_url; url_a; url_b]).
Proof.
  split; [| split; [| split; [| split]]].
  - apply list_elem_of_In. vm_compute. now left.
  - vm_compute. reflexivity.
  - vm_compute. reflexivity.
  - vm_compute. reflexivity.
  - exists (match seed_on site no_sitemap interactively 10 with
            | Some (inl s0) => s0
            | _ => start
            end).
    split; vm_compute; reflexivity.
Qed.

Lemma links_extracted_after_stripping_witness :
  strip_chrome home = without chrome_selectors home /\
  (forall c, In c chrome_selectors -> Dom.select [c] (strip_chrome home) = []).
Proof.
  destruct (links_extracted_after_stripping
              urlparse urljoin (serve site) markup_ok no_image any_image seed_url
              (with_limit 10) seed_url home home_main start) as [H1 [H2 _]];
    try reflexivity.
  split; [exact H1 | exact H2].
Defined.

(** *** The page budget *)




(** *** The frontier *)

(** C5, counterexample: a sitemap that lists a URL twice seeds the
    frontier with two pending entries for it. *)
Lemma sitemap_frontier_repeats :
  exists s0, seed_on site repeating_sitemap from_sitemap 0 = Some (inl s0) /\
             to_visit s0 = [url_a; url_a] /\
             ~ NoDup (to_visit s0).
Proof.
  exists (set_to_visit [url_a; url_a] start).
  split; [vm_compute; reflexivity |]. split; [reflexivity |].
  simpl. intros H. apply NoDup_cons in H as [H _]. apply H. now left.
Qed.

Lemma crawl_frontier_witness :
  NoDup (attempted (crawl_body_on site (with_limit 10) start)) /\
  NoDup (to_visit (crawl_body_on site (with_limit 10) start)).
Proof.
  destruct (crawl_frontier_invariants
              urlparse urljoin (serve site) markup_ok no_image any_image no_sitemap
              answer_all seed_url (with_limit 10) 0%nat start
              (crawl_body_on site (with_limit 10) start))
    as [H1 [_ [_ [H4 H5]]]].
  - reflexivity.
  - apply reaches_turn; [apply reaches_start | reflexivity].
  - split; [exact H1 |]. apply H4. now apply H5.
Defined.


(** *** The scope filter *)

Lemma is_valid_url_out_of_scope_witness :
  is_valid_url urlparse seed_url (with_depth 2) "https://other.example.org/docs/a"
               (Some seed_url) start
  = (false, start).
Proof.
  apply is_valid_url_out_of_scope. left. split; vm_compute; discriminate.
Defined.

(** C4: the depth policy at a candidate with a fragment, with a maximum
    depth of 1.  The candidate is accepted from the seed (depth 0), but
    depth 1 is recorded for the URL without the fragment and none for the
    candidate, which is what the frontier receives; so when the
    candidate is the parent its depth reads as 0, its link is accepted
    at depth 1, and the crawl fetches a page two links away from the
    seed.  Without the fragment the same site is crawled to depth 1. *)
Lemma depth_limit_bypassed_by_fragment :
  let validate := is_valid_url urlparse seed_url (with_depth 1) in
  let s1 := snd (validate url_a_top (Some seed_url) start) in
  fst (validate url_a_top (Some seed_url) start) = true /\
  url_depth s1 !! url_a_top = None /\
  url_depth s1 !! url_a = Some 1 /\
  fst (validate url_b (Some url_a_top) s1) = true /\
  url_depth (snd (validate url_b (Some url_a_top) s1)) !! url_b = Some 1 /\
  fst (validate url_b (Some url_a) s1) = false /\
  fetched (final (run_on deep_site (with_depth 1) 10)) = [url_b; url_a_top; seed_url] /\
  fetched (final (run_on deep_site_plain (with_depth 1) 10)) = [url_a; seed_url].
Proof. repeat split; vm_compute; reflexivity. Qed.

(** *** The content filter on the pages of the specification *)

Definition guide_page : soup :=
  html_page "Guide" [Elem "p" [] [] [Text "A short Guide, now deprecated."]].

Definition with_keywords (inc exc : option string) : options :=
  {| max_pages := 10; max_depth := None; format := "json";
     use_sitemap := false; sitemap_url := None; categories := None;
     contains := inc; not_contains := exc; create_toc := false;
     interactive := false |}.

Example include_keyword_accepts :
  check_content_filters (with_keywords (Some "guide,tutorial") None) guide_page = true.
Proof. reflexivity. Qed.

Example exclude_keyword_rejects :
  check_content_filters (with_keywords (Some "guide,tutorial") (Some "deprecated"))
                        guide_page = false.
Proof. reflexivity. Qed.

(** *** The category filter on a page with an empty breadcrumb *)

Definition with_categories (c : string) : options :=
  {| max_pages := 10; max_depth := None; format := "json";
     use_sitemap := false; sitemap_url := None; categories := Some c;
     contains := None; not_contains := None; create_toc := false;
     interactive := false |}.

Definition active_item : node :=
  Elem "li" ["nav-item"; "active"] [] [Text "API Reference"].

(** A page of the category "API Reference", with and without an empty
    breadcrumb region before the active navigation item. *)
Definition api_page : soup :=
  html_page "API"
    [Elem "div" ["breadcrumbs"] [] []; active_item;
     Elem "main" [] [] [Elem "p" [] [] [Text "calls"]]].

Definition api_page_plain : soup :=
  html_page "API" [active_item; Elem "main" [] [] [Elem "p" [] [] [Text "calls"]]].

(** C9, counterexample: with the categories "guide", a page whose
    active navigation item reads "API Reference" is dropped; the same
    page with an empty breadcrumb region before it is kept, because the
    label is taken from the breadcrumb, the first location with an
    element, and an empty label lets the page pass. *)
Lemma empty_label_passes :
  Dom.select_one [Dom.Compound None ["nav-item"; "active"]] api_page = Some active_item /\
  get_category api_page = Some EmptyString /\
  check_category (with_categories "guide") api_page = true /\
  List.map fst (contents (final (run_on [(seed_url, api_page)] (with_categories "guide") 10)))
  = [seed_url] /\
  get_category api_page_plain = Some "API Reference" /\
  check_category (with_categories "guide") api_page_plain = false /\
  contents (final (run_on [(seed_url, api_page_plain)] (with_categories "guide") 10)) = [].
Proof. repeat split; vm_compute; reflexivity. Qed.

(** *** The Markdown anchor *)

Definition started : string * page_content :=
  (url_a, {| pc_title := Some "Getting Started: V2."; pc_html := Text "hello";
             pc_text := "hello"; pc_url := url_a |}).

Definition with_toc : options :=
  {| max_pages := 10; max_depth := None; format := "md";
     use_sitemap := false; sitemap_url := None; categories := None;
     contains := None; not_contains := None; create_toc := true;
     interactive := false |}.

Lemma markdown_anchor_witness :
  exists out,
    create_markdown seed_url with_toc (set_contents [started] start) = Some (TextFile out) /\
    occurs_in ("- [Getting Started: V2.](#getting-started-v2)" +:+ nl) out /\
    occurs_in ("## Getting Started: V2. <a id=" +:+ dq +:+ "getting-started-v2" +:+ dq +:+
               "></a>" +:+ nl +:+ nl) out.
Proof.
  destruct (markdown_anchor_getting_started seed_url with_toc started eq_refl)
    as [_ [_ [_ [_ H]]]].
  destruct (H (set_contents [started] start)) as [out [Hout [Htoc Hhead]]].
  - now left.
  - intros e' [<- | []]. discriminate.
  - exists out. split; [exact Hout |]. split; [now apply Htoc | exact Hhead].
Defined.

(** *** A page that fails after its content entry is stored *)





(** *** Further runs *)

Definition missing_url : string := "https://example.com/docs/missing".

Definition process_page_on (pages : list (string * soup)) (o : options)
           (url : string) (s : state) : list flowable * state :=
  process_page urlparse urljoin (serve pages) markup_ok no_image any_image seed_url o url s.

Lemma process_page_skips_witness :
  process_page_on site (with_limit 10) missing_url start
  = ([], log_fetch missing_url start).
Proof. apply process_page_skips. left. reflexivity. Defined.

Lemma process_page_elements_witness :
  exists page main blocks,
    serve site seed_url = Some page /\
    main_content (strip_chrome page) = Some main /\
    extract_blocks markup_ok no_image any_image seed_url
                   (Dom.find_all block_tags main) = Some blocks.
Proof.
  destruct (process_page_elements
              urlparse urljoin (serve site) markup_ok no_image any_image seed_url
              (with_limit 10) seed_url start)
    as [page [main [blocks [H1 [_ [_ [H2 [H3 _]]]]]]]].
  - vm_compute. discriminate.
  - exists page, main, blocks. now repeat split.
Defined.

(** The frontier that the repeating sitemap seeds. *)
Definition listed_twice : state := set_to_visit [url_a; url_a] start.

Lemma sitemap_mode_frontier_witness :
  exists taken,
    to_visit listed_twice
    = taken ++ to_visit (crawl_body_on site from_sitemap listed_twice).
Proof.
  destruct (sitemap_mode_frontier
              urlparse urljoin (serve site) markup_ok no_image any_image seed_url
              from_sitemap listed_twice (crawl_body_on site from_sitemap listed_twice))
    as [H _].
  - reflexivity.
  - apply reaches_turn; [apply reaches_start | reflexivity].
  - exact H.
Defined.

Definition after_seed : state := crawl_body_on site (with_limit 10) start.

Lemma after_seed_reached :
  crawl_reaches urlparse urljoin (serve site) markup_ok no_image any_image seed_url
                (with_limit 10) start after_seed.
Proof. apply reaches_turn; [apply reaches_start | reflexivity]. Qed.

Lemma crawl_stays_in_scope_witness :
  url_b ∈ to_visit start \/ url_b ∈ attempted start \/
  in_scope urlparse seed_url (with_limit 10) url_b = true.
Proof.
  apply (crawl_stays_in_scope
           urlparse urljoin (serve site) markup_ok no_image any_image seed_url
           (with_limit 10) start after_seed url_b after_seed_reached).
  left. replace (to_visit after_seed) with [url_b] by (vm_compute; reflexivity).
  now apply list_elem_of_singleton.
Defined.

Lemma crawl_fetches_once_witness :
  fetched after_seed = attempted after_seed ++ fetched start /\
  NoDup (attempted after_seed).
Proof.
  destruct (crawl_fetches_once
              urlparse urljoin (serve site) markup_ok no_image any_image no_sitemap
              answer_all seed_url (with_limit 10) 0%nat start after_seed eq_refl
              after_seed_reached)
    as [H1 [H2 _]].
  now split.
Defined.

Lemma contents_keys_visited_witness :
  NoDup (List.map fst (contents after_seed)).
Proof.
  destruct (contents_keys_visited
              urlparse urljoin (serve site) markup_ok no_image any_image no_sitemap
              answer_all seed_url (with_limit 10) 0%nat start after_seed eq_refl
              after_seed_reached)
    as [H _].
  exact H.
Defined.

(** The discovery crawl of the interactive mode on the site. *)
Definition discovered : discovery :=
  match while (discover_cond interactively)
              (discover_body urlparse urljoin (serve site) seed_url interactively) 10
              {| d_state := start; temp_visited := ∅; d_to_visit := [seed_url];
                 discovered_urls := [] |} with
  | Some ds => ds
  | None => {| d_state := start; temp_visited := ∅; d_to_visit := [];
               discovered_urls := [] |}
  end.

Lemma discovery_distinct_bounded_witness :
  NoDup (discovered_urls discovered) /\
  fetched (d_state discovered) = rev (discovered_urls discovered) ++ fetched start.
Proof.
  destruct (discovery_distinct_bounded
              urlparse urljoin (serve site) seed_url interactively 10%nat start discovered)
    as [H1 [H2 _]].
  - vm_compute. reflexivity.
  - now split.
Defined.

Lemma markdown_anchor_clean_witness :
  PyStr.has_char ":" (markdown_anchor "Getting Started: V2.") = false.
Proof. apply markdown_anchor_clean. right. left. reflexivity. Defined.

Lemma page_title_fallback_witness :
  page_title [Elem "body" [] [] []] ("https://example.com/docs" +:+ "/" +:+ "intro")
  = Some "intro" /\
  page_title [Elem "body" [] [] []] ("https://example.com/docs" +:+ "/") = Some EmptyString.
Proof. apply page_title_fallback; reflexivity. Defined.


Lemma is_valid_url_depth_witness :
  exists s', is_valid_url urlparse seed_url (with_depth 2) url_a (Some seed_url) start
             = (true, s') /\
             url_depth s' !! url_a = Some 1.
Proof.
  destruct (is_valid_url_depth urlparse seed_url (with_depth 2) url_a seed_url 2 start)
    as [_ H]; try reflexivity; try discriminate.
  exact (H ltac:(vm_compute; reflexivity)).
Defined.

End Runs.
